(** * Radius Works image subsystem: fallback state machine, picture builder,
      metadata loading and fallback statistics

    A shallow embedding of [js/image-enhancements.js]: the class
    [ImageEnhancementManager] and the global handlers [handleAboutImageError]
    and [handleReviewImageError].

    Conventions of the embedding.
    - A JavaScript string is a [string]; a property that may be [undefined]
      is an [option string].
    - A JavaScript number that comes out of [parseInt] is a [JS.number]
      ([NaN] or an integer); the rounding of integers beyond 2^53 is not
      modelled (every such value takes the [default] branch of the switches
      below, like its rounded value does).
    - A plain object used as a dictionary is a [gmap string _]. The read
      of the metadata follows the prototype chain as the code's property
      access does ([Metadata.lookup_record]); the fixed tables of the code
      are modelled at the keys that are not names of inherited members.
    - [img.src] is the plain property the code reads and writes (as the
      unit tests' mock elements have it), not a resolved absolute URL.
    - [console] output is modelled in [loadImageMetadata], whose warning is
      part of its contract; it is left out of the DOM handlers. *)

From stdpp Require Import gmap strings list fin_maps.
From Stdlib Require Import ZArith Ascii.

Local Open Scope Z_scope.
Local Set Warnings "-register-all".

(** ** JavaScript values and built-ins used by the code *)

Module JS.

(** The result of [parseInt]. *)
Inductive number : Type :=
| NaN
| Num (z : Z).

#[global] Instance number_eq_dec : EqDecision number.
Proof. solve_decision. Defined.

(** Truthiness of a string-or-undefined value: [undefined] and [''] are
    falsy. *)
Definition truthy (v : option string) : bool :=
  match v with
  | Some s => negb (String.eqb s "")
  | None => false
  end.

(** [v || d] for a string-or-undefined [v] and a string [d]. *)
Definition or_else (v : option string) (d : string) : string :=
  match v with
  | Some s => if String.eqb s "" then d else s
  | None => d
  end.

(** String coercion inside a template literal or a DOM string property. *)
Definition to_str (v : option string) : string :=
  match v with
  | Some s => s
  | None => "undefined"
  end.

Definition is_white_space (c : ascii) : bool :=
  let n := Z.of_nat (nat_of_ascii c) in
  (n =? 32) || ((9 <=? n) && (n <=? 13)).

Fixpoint trim_start (s : string) : string :=
  match s with
  | String c rest => if is_white_space c then trim_start rest else s
  | EmptyString => s
  end.

Definition digit_value (c : ascii) : option Z :=
  let n := Z.of_nat (nat_of_ascii c) in
  if (48 <=? n) && (n <=? 57) then Some (n - 48)
  else if (97 <=? n) && (n <=? 122) then Some (n - 87)
  else if (65 <=? n) && (n <=? 90) then Some (n - 55)
  else None.

(** The longest prefix of radix-[r] digits, as an integer; [acc] is [None]
    until a digit has been read. *)
Fixpoint parse_digits (r : Z) (s : string) (acc : option Z) : option Z :=
  match s with
  | String c rest =>
      match digit_value c with
      | Some d =>
          if d <? r
          then parse_digits r rest (Some (r * default 0 acc + d))
          else acc
      | None => acc
      end
  | EmptyString => acc
  end.

Definition strip_sign (s : string) : Z * string :=
  match s with
  | String "-" rest => (-1, rest)
  | String "+" rest => (1, rest)
  | _ => (1, s)
  end.

Definition strip_hex_prefix (s : string) : Z * string :=
  match s with
  | String "0" (String "x" rest) => (16, rest)
  | String "0" (String "X" rest) => (16, rest)
  | _ => (10, s)
  end.

(** [parseInt(s)] without a radix argument (ASCII white space only). *)
Definition parseInt (s : string) : number :=
  let '(sign, s1) := strip_sign (trim_start s) in
  let '(radix, s2) := strip_hex_prefix s1 in
  match parse_digits radix s2 None with
  | Some n => Num (sign * n)
  | None => NaN
  end.

(** [s.replace(/-/g, ' ')]. *)
Fixpoint replace_hyphens (s : string) : string :=
  match s with
  | String c rest =>
      String (if Ascii.eqb c "-" then " "%char else c) (replace_hyphens rest)
  | EmptyString => EmptyString
  end.

(** [s.indexOf(p) === 0]. *)
Definition starts_with (p s : string) : bool := String.prefix p s.

(** What a property read gives, as far as a truthiness test can tell: a
    falsy value, a truthy one, or a [TypeError]. *)
Inductive read : Type :=
| ReadFalsy
| ReadTruthy
| ReadThrows.

End JS.

(** ** Stats Recorder: [trackFallbackUsage], [getFallbackStats],
       [resetFallbackStats] *)

Module Stats.

(** One entry of [this.fallbackStats]: [{ levels: [], count: 0 }]. *)
Record FallbackStat : Type := mkStat {
  levels : list JS.number;
  count : Z
}.

#[global] Instance FallbackStat_eq_dec : EqDecision FallbackStat.
Proof. solve_decision. Defined.

(** [this.fallbackStats]: [undefined] until the first call. *)
Definition store : Type := option (gmap string FallbackStat).

Definition stat_key (category imageName : option string) : string :=
  JS.to_str category +:+ "/" +:+ JS.to_str imageName.

Definition empty_stat : FallbackStat := {| levels := []; count := 0 |}.

Definition push_level (fallbackLevel : JS.number) (e : FallbackStat)
  : FallbackStat :=
  {| levels := levels e ++ [fallbackLevel]; count := count e + 1 |}.

Definition trackFallbackUsage (category imageName : option string)
    (fallbackLevel : JS.number) (fs : store) : store :=
  let stats := default ∅ fs in
  let key := stat_key category imageName in
  let stats :=
    match stats !! key with
    | Some _ => stats
    | None => <[key := empty_stat]> stats
    end in
  Some (alter (push_level fallbackLevel) key stats).

Definition getFallbackStats (fs : store) : gmap string FallbackStat :=
  default ∅ fs.

Definition resetFallbackStats (fs : store) : store := Some ∅.

(** The operator's view of the recorder. *)
Inductive op : Type :=
| Record_ (category imageName : option string) (fallbackLevel : JS.number)
| Reset.

Definition run_op (o : op) (fs : store) : store :=
  match o with
  | Record_ c n l => trackFallbackUsage c n l fs
  | Reset => resetFallbackStats fs
  end.

Definition run_ops (os : list op) (fs : store) : store :=
  foldl (fun acc o => run_op o acc) fs os.

(** The entry of a key, with the entry the code would create when the key
    is absent. *)
Definition entry (fs : store) (key : string) : FallbackStat :=
  default empty_stat (getFallbackStats fs !! key).

Definition consistent (fs : store) : Prop :=
  ∀ key e, getFallbackStats fs !! key = Some e →
           count e = Z.of_nat (List.length (levels e)).

End Stats.

(** ** Metadata Store: the shape of [scripts/image-metadata.json] *)

Module Metadata.

(** One image record; every field may be missing in the JSON. *)
Record ImageRecord : Type := mkRecord {
  src : option string;
  webp : option string;
  optimized : option string;
  alt : option string;
  title : option string;
  priority : option string
}.

Record OpenGraph : Type := mkOpenGraph {
  defaultImage : option string
}.

Record Seo : Type := mkSeo {
  openGraph : option OpenGraph;
  businessImages : option (list string)
}.

(** The document: the category sections (category, then image name) and
    the [seo] section. *)
Record t : Type := mkMetadata {
  categories : gmap string (gmap string ImageRecord);
  seo : option Seo
}.

(** The record the document itself holds under a category and a name. *)
Definition own_record (md : option t) (category imageName : string)
  : option ImageRecord :=
  m ← md; c ← categories m !! category; c !! imageName.

(** A value that is not an image record: none of the fields the builder
    reads is defined on it. *)
Definition no_fields : ImageRecord :=
  {| src := None; webp := None; optimized := None; alt := None;
     title := None; priority := None |}.

(** The methods every plain object inherits from [Object.prototype]
    (ECMAScript, with the additions for web browsers). *)
Definition object_prototype_methods : list string :=
  ["constructor"; "hasOwnProperty"; "isPrototypeOf"; "propertyIsEnumerable";
   "toLocaleString"; "toString"; "valueOf"; "__defineGetter__";
   "__defineSetter__"; "__lookupGetter__"; "__lookupSetter__"].

(** The names a plain object answers without owning them: the inherited
    methods, and [__proto__], which answers [Object.prototype] itself. *)
Definition inherits (name : string) : bool :=
  bool_decide (name ∈ "__proto__" :: object_prototype_methods).

(** What [imageData] of [createPictureElement] is after the read of the
    metadata: falsy, truthy with the fields it holds, or the read threw. *)
Inductive found : Type :=
| Falsy
| Truthy (imageData : ImageRecord)
| Throws.

(** [o[name]] on a plain object that owns [own] under [name]: its own
    value, else what it inherits (a function, or [Object.prototype]: truthy,
    with none of the image fields), else [undefined]. *)
Definition plain_object_get (own : option ImageRecord) (name : string)
  : found :=
  match own with
  | Some r => Truthy r
  | None => if inherits name then Truthy no_fields else Falsy
  end.

(** The own members of the [seo] section: objects that are not image
    records. *)
Definition seo_own (s : Seo) (name : string) : option ImageRecord :=
  if String.eqb name "openGraph" then (λ _, no_fields) <$> openGraph s
  else if String.eqb name "structuredData"
       then (λ _, no_fields) <$> businessImages s
       else None.

(** [Object.prototype[name]]: its methods; its [__proto__] is [null]. *)
Definition object_prototype_get (name : string) : found :=
  if bool_decide (name ∈ object_prototype_methods) then Truthy no_fields
  else Falsy.

(** [this.imageMetadata?.[category]?.[imageName]]. The category is read
    from the whole document: a category section, the [seo] section, or what
    the document inherits. [builtins f name] is what the runtime answers for
    the member [name] of its built-in method [f] of [Object.prototype]. *)
Definition lookup_record (builtins : string → string → JS.read)
    (md : option t) (category imageName : string) : found :=
  match md with
  | None => Falsy
  | Some m =>
      match categories m !! category with
      | Some section => plain_object_get (section !! imageName) imageName
      | None =>
          match (if String.eqb category "seo" then seo m else None) with
          | Some s => plain_object_get (seo_own s imageName) imageName
          | None =>
              if String.eqb category "__proto__"
              then object_prototype_get imageName
              else if bool_decide (category ∈ object_prototype_methods)
              then match builtins category imageName with
                   | JS.ReadFalsy => Falsy
                   | JS.ReadTruthy => Truthy no_fields
                   | JS.ReadThrows => Throws
                   end
              else Falsy
          end
      end
  end.

End Metadata.

(** The fields of [ImageEnhancementManager] that the modelled methods use. *)
Record Manager : Type := mkManager {
  imageMetadata : option Metadata.t;
  fallbackStats : Stats.store
}.

Definition set_fallbackStats (fs : Stats.store) (m : Manager) : Manager :=
  {| imageMetadata := imageMetadata m; fallbackStats := fs |}.

Definition set_imageMetadata (md : option Metadata.t) (m : Manager) : Manager :=
  {| imageMetadata := md; fallbackStats := fallbackStats m |}.

(** ** The part of the DOM the handlers touch *)

Module Dom.

(** A subtree that hangs off the path from the image to the root: its
    class list, its text and its children. *)
Inductive Node : Type :=
| mkNode (node_class : list string) (node_text : string)
         (node_kids : list Node).

(** An ancestor of the image: its class list and its other children. *)
Record Element : Type := mkElement {
  el_classList : list string;
  el_kids : list Node
}.

(** The [img] element: attributes, [classList], [dataset], [style.display]
    and children. *)
Record Img : Type := mkImg {
  src : string;
  alt : string;
  loading : string;
  classList : list string;
  fallbackLevel : option string;
  fallbackSrc : option string;
  category : option string;
  imageName : option string;
  display : string;
  kids : list Node
}.

(** The image with its ancestors, nearest first. *)
Record Tree : Type := mkTree {
  img : Img;
  ancestors : list Element
}.

(** *** [DOMTokenList] *)

Definition contains (c : string) (l : list string) : bool :=
  bool_decide (c ∈ l).

Definition class_add (c : string) (l : list string) : list string :=
  if contains c l then l else l ++ [c].

Definition class_remove (c : string) (l : list string) : list string :=
  filter (λ x, x ≠ c) l.

(** *** Selectors made of classes: a list of alternatives, each a list of
    classes that must all be present ([.a.b, .c] is [[a; b]; [c]]). *)

Definition selector : Type := list (list string).

Definition matches (sel : selector) (cls : list string) : bool :=
  existsb (forallb (λ c, contains c cls)) sel.

(** An element on the path: the image itself or its [i]-th ancestor. *)
Inductive Ref : Type :=
| Self
| Anc (i : nat).

Fixpoint find_ancestor (sel : selector) (l : list Element) : option nat :=
  match l with
  | [] => None
  | e :: rest =>
      if matches sel (el_classList e) then Some 0%nat
      else S <$> find_ancestor sel rest
  end.

(** [img.closest(sel)]: the image itself when it matches, else its nearest
    matching ancestor, else [null]. *)
Definition closest (sel : selector) (t : Tree) : option Ref :=
  if matches sel (classList (img t)) then Some Self
  else Anc <$> find_ancestor sel (ancestors t).

Fixpoint node_has (sel : selector) (n : Node) : bool :=
  match n with
  | mkNode cls _ ks => matches sel cls || existsb (node_has sel) ks
  end.

Definition img_has (sel : selector) (i : Img) : bool :=
  existsb (node_has sel) (kids i).

Definition element_has (sel : selector) (e : Element) : bool :=
  existsb (node_has sel) (el_kids e).

(** [container.querySelector(sel) !== null]: some proper descendant of the
    container matches. *)
Definition has_descendant (sel : selector) (container : Ref) (t : Tree)
  : bool :=
  match container with
  | Self => img_has sel (img t)
  | Anc i =>
      matches sel (classList (img t)) || img_has sel (img t)
      || existsb (λ e, matches sel (el_classList e) || element_has sel e)
                 (take i (ancestors t))
      || from_option (element_has sel) false (ancestors t !! i)
  end.

(** *** Updates *)

Definition set_src (v : string) (i : Img) : Img :=
  mkImg v (alt i) (loading i) (classList i) (fallbackLevel i)
        (fallbackSrc i) (category i) (imageName i) (display i) (kids i).

Definition set_classList (v : list string) (i : Img) : Img :=
  mkImg (src i) (alt i) (loading i) v (fallbackLevel i)
        (fallbackSrc i) (category i) (imageName i) (display i) (kids i).

Definition set_fallbackLevel (v : string) (i : Img) : Img :=
  mkImg (src i) (alt i) (loading i) (classList i) (Some v)
        (fallbackSrc i) (category i) (imageName i) (display i) (kids i).

Definition set_display (v : string) (i : Img) : Img :=
  mkImg (src i) (alt i) (loading i) (classList i) (fallbackLevel i)
        (fallbackSrc i) (category i) (imageName i) v (kids i).

Definition set_kids (v : list Node) (i : Img) : Img :=
  mkImg (src i) (alt i) (loading i) (classList i) (fallbackLevel i)
        (fallbackSrc i) (category i) (imageName i) (display i) v.

Definition on_img (f : Img → Img) (t : Tree) : Tree :=
  mkTree (f (img t)) (ancestors t).

Definition on_element_classList (f : list string → list string)
    (e : Element) : Element :=
  mkElement (f (el_classList e)) (el_kids e).

(** Apply [f] to the class list of the referenced element. *)
Definition on_classList (f : list string → list string) (r : Ref)
    (t : Tree) : Tree :=
  match r with
  | Self => on_img (λ i, set_classList (f (classList i)) i) t
  | Anc n =>
      mkTree (img t) (alter (on_element_classList f) n (ancestors t))
  end.

(** [r.appendChild(n)]. *)
Definition append_child (n : Node) (r : Ref) (t : Tree) : Tree :=
  match r with
  | Self => on_img (λ i, set_kids (kids i ++ [n]) i) t
  | Anc k =>
      mkTree (img t)
             (alter (λ e, mkElement (el_classList e) (el_kids e ++ [n]))
                    k (ancestors t))
  end.

(** The class list of the referenced element ([[]] when it is missing). *)
Definition classes_of (r : Ref) (t : Tree) : list string :=
  match r with
  | Self => classList (img t)
  | Anc n => from_option el_classList [] (ancestors t !! n)
  end.

End Dom.

(** ** Fallback State Machine: the manager's handlers *)

Module Fallback.
Import Dom.

(** The selector of every [img.closest(...)] call of the manager. *)
Definition container_selector : selector :=
  [["image-container"]; ["service-card"]; ["hero-image"]; ["about-image"];
   ["enhanced-picture"]].

(** [parseInt(img.dataset.fallbackLevel || '0')]. *)
Definition level (i : Img) : JS.number :=
  JS.parseInt (JS.or_else (fallbackLevel i) "0").

Definition icons : gmap string string :=
  list_to_map
    [("hero", "🏠"); ("services", "🔧"); ("about", "👥"); ("reviews", "⭐")].

Definition getPlaceholderIcon (category : option string) : string :=
  JS.or_else (icons !! JS.to_str category) "🖼️".

Definition texts : gmap string string :=
  list_to_map
    [("hero", "Professional Plumbing Services"); ("services", "Service Image");
     ("about", "Our Team"); ("reviews", "Customer Review")].

Definition getPlaceholderText (category : option string) : string :=
  JS.or_else (texts !! JS.to_str category) "Image".

Definition createPlaceholderContent (container : Ref)
    (category : option string) (t : Tree) : Tree :=
  if has_descendant [["placeholder-content"]] container t then t
  else
    append_child
      (mkNode ["placeholder-content"] ""
         [mkNode ["placeholder-icon"] (getPlaceholderIcon category) [];
          mkNode ["placeholder-text"] (getPlaceholderText category) []])
      container t.

Definition createErrorPlaceholder (container : Ref)
    (category : option string) (t : Tree) : Tree :=
  if has_descendant [["error-placeholder"]] container t then t
  else
    append_child
      (mkNode ["error-placeholder"] ""
         [mkNode ["error-icon"] "⚠️" [];
          mkNode ["error-text"] "Image unavailable" []])
      container t.

Definition attemptTertiaryFallback (t : Tree) : Tree :=
  let t := on_img (set_fallbackLevel "2") t in
  let t := on_img (set_display "none") t in
  let t := on_classList (class_add "fallback-tertiary") Self t in
  match closest container_selector t with
  | Some container =>
      let t := on_classList (class_add "image-placeholder") container t in
      createPlaceholderContent container (category (img t)) t
  | None => t
  end.

(** [fallbackSrc && fallbackSrc !== img.src]. *)
Definition has_distinct_fallback (t : Tree) : bool :=
  JS.truthy (fallbackSrc (img t))
  && negb (String.eqb (JS.to_str (fallbackSrc (img t))) (src (img t))).

Definition attemptSecondaryFallback (t : Tree) : Tree :=
  let fallbackSrc := fallbackSrc (img t) in
  if has_distinct_fallback t
  then
    let t := on_img (set_fallbackLevel "1") t in
    let t := on_img (set_src (JS.to_str fallbackSrc)) t in
    on_classList (class_add "fallback-secondary") Self t
  else attemptTertiaryFallback t.

Definition handleFinalFallback (t : Tree) : Tree :=
  let t := on_img (set_fallbackLevel "3") t in
  let t := on_img (set_display "none") t in
  let t := on_classList (class_add "fallback-final") Self t in
  match closest container_selector t with
  | Some container =>
      let t := on_classList (class_add "image-failed") container t in
      createErrorPlaceholder container (category (img t)) t
  | None => t
  end.

Definition handleEnhancedImageError (m : Manager) (t : Tree)
  : Manager * Tree :=
  let fallbackLevel := level (img t) in
  let t :=
    match fallbackLevel with
    | JS.Num 0 => attemptSecondaryFallback t
    | JS.Num 1 => attemptTertiaryFallback t
    | _ => handleFinalFallback t
    end in
  (set_fallbackStats
     (Stats.trackFallbackUsage (category (img t)) (imageName (img t))
                               fallbackLevel (fallbackStats m)) m,
   t).

(** The legacy entry point. *)
Definition handleImageError (m : Manager) (t : Tree) : Manager * Tree :=
  handleEnhancedImageError m t.

Definition handleImageLoad (t : Tree) : Tree :=
  let t := on_classList (class_add "loaded") Self t in
  let t := on_classList (class_remove "loading") Self t in
  match closest container_selector t with
  | Some container =>
      on_classList
        (λ l, class_remove "image-failed" (class_remove "image-placeholder" l))
        container t
  | None => t
  end.

(** A run of failure events on one element. *)
Fixpoint fail_n (n : nat) (m : Manager) (t : Tree) : Manager * Tree :=
  match n with
  | O => (m, t)
  | S k => let '(m1, t1) := handleEnhancedImageError m t in fail_n k m1 t1
  end.

End Fallback.

(** ** The global handlers of the about and review sections

    They are called from [onerror] attributes; [window.imageEnhancementManager]
    may be missing. Each handler calls itself in one branch, so the model
    takes the depth of call stack that is left: running out of it is the
    engine's [RangeError], which nothing here catches.  Inline
    [style.background] is not part of the modelled DOM. *)

Module Handlers.
Import Dom.

Record World : Type := mkWorld {
  manager : option Manager;
  tree : Tree
}.

Inductive outcome : Type :=
| Returned (w : World)
| StackOverflow.

(** [if (window.imageEnhancementManager) ...trackFallbackUsage(...)]. *)
Definition track (category imageName : string) (fallbackLevel : JS.number)
    (w : World) : World :=
  match manager w with
  | Some m =>
      mkWorld
        (Some (set_fallbackStats
                 (Stats.trackFallbackUsage (Some category) (Some imageName)
                    fallbackLevel (fallbackStats m)) m))
        (tree w)
  | None => w
  end.

Definition on_tree (f : Tree → Tree) (w : World) : World :=
  mkWorld (manager w) (f (tree w)).

Definition secondary_step (t : Tree) : Tree :=
  let fallbackSrc := fallbackSrc (img t) in
  let t := on_img (set_fallbackLevel "1") t in
  let t := on_img (set_src (JS.to_str fallbackSrc)) t in
  on_classList (class_add "fallback-secondary") Self t.

Definition about_tertiary (t : Tree) : Tree :=
  let t := on_img (set_fallbackLevel "2") t in
  let t := on_img (set_display "none") t in
  let t := on_classList (class_add "fallback-tertiary") Self t in
  let teamMember := closest [["team-member"]] t in
  let teamPrimary := closest [["team-primary"]] t in
  match teamMember, teamPrimary with
  | Some r, _ => on_classList (class_add "team-fallback") r t
  | None, Some r => on_classList (class_add "team-fallback") r t
  | None, None => t
  end.

Definition about_final (t : Tree) : Tree :=
  let t := on_img (set_fallbackLevel "3") t in
  let t := on_img (set_display "none") t in
  let t := on_classList (class_add "fallback-final") Self t in
  match closest [["team-member"]; ["team-primary"]; ["about-team-gallery"]] t
  with
  | Some container => on_classList (class_add "image-failed") container t
  | None => t
  end.

Fixpoint handleAboutImageError (stack : nat) (w : World) : outcome :=
  match stack with
  | O => StackOverflow
  | S stack =>
      let fallbackLevel := Fallback.level (img (tree w)) in
      let category := JS.or_else (category (img (tree w))) "about" in
      let imageName := JS.or_else (imageName (img (tree w))) "unknown" in
      let r :=
        match fallbackLevel with
        | JS.Num 0 =>
            if Fallback.has_distinct_fallback (tree w)
            then Returned (on_tree secondary_step w)
            else handleAboutImageError stack w
        | JS.Num 1 => Returned (on_tree about_tertiary w)
        | _ => Returned (on_tree about_final w)
        end in
      match r with
      | Returned w => Returned (track category imageName fallbackLevel w)
      | StackOverflow => StackOverflow
      end
  end.

Definition review_tertiary (t : Tree) : Tree :=
  let t := on_img (set_fallbackLevel "2") t in
  let t := on_img (set_display "none") t in
  let t := on_classList (class_add "fallback-tertiary") Self t in
  let reviewCard := closest [["review-card"; "enhanced"]] t in
  let reviewBackground := closest [["review-background"]] t in
  match reviewCard, reviewBackground with
  | Some card, Some background =>
      let t := on_classList (class_add "review-fallback") background t in
      on_classList (class_add "review-no-image") card t
  | _, _ => t
  end.

Definition review_final (t : Tree) : Tree :=
  let t := on_img (set_fallbackLevel "3") t in
  let t := on_img (set_display "none") t in
  let t := on_classList (class_add "fallback-final") Self t in
  match closest [["review-card"; "enhanced"]] t with
  | Some container =>
      on_classList (class_add "review-image-failed") container t
  | None => t
  end.

Fixpoint handleReviewImageError (stack : nat) (w : World) : outcome :=
  match stack with
  | O => StackOverflow
  | S stack =>
      let fallbackLevel := Fallback.level (img (tree w)) in
      let category := JS.or_else (category (img (tree w))) "reviews" in
      let imageName := JS.or_else (imageName (img (tree w))) "unknown" in
      let r :=
        match fallbackLevel with
        | JS.Num 0 =>
            if Fallback.has_distinct_fallback (tree w)
            then Returned (on_tree secondary_step w)
            else handleReviewImageError stack w
        | JS.Num 1 => Returned (on_tree review_tertiary w)
        | _ => Returned (on_tree review_final w)
        end in
      match r with
      | Returned w => Returned (track category imageName fallbackLevel w)
      | StackOverflow => StackOverflow
      end
  end.

(** The manager's handler as an entry point on the same world; it has no
    call to itself and needs no stack bound. *)
Definition handleManagerImageError (m : Manager) (t : Tree) : outcome :=
  let '(m, t) := Fallback.handleEnhancedImageError m t in
  Returned (mkWorld (Some m) t).

End Handlers.

(** ** Format Negotiator and Picture Element Builder *)

Module Builder.

(** The runtime: what [canvas.toDataURL(type)] returns for the 1x1 canvas
    of the probe, and what its built-in methods of [Object.prototype] answer
    for a member name ([builtins "toString" "call"], say). *)
Record Env : Type := mkEnv {
  toDataURL : string → string;
  builtins : string → string → JS.read
}.

Definition checkWebPSupport (env : Env) : bool :=
  JS.starts_with "data:image/webp" (toDataURL env "image/webp").

Record Options : Type := mkOptions {
  eager : bool
}.

(** A [source] child of the picture. *)
Record Source : Type := mkSource {
  srcset : string;
  type : string;
  format : string
}.

Inductive Child : Type :=
| SourceChild (s : Source)
| ImgChild (i : Dom.Img).

Record Picture : Type := mkPicture {
  className : string;
  category : string;
  imageName : string;
  children : list Child
}.

(** The category table of generic fallback sources. *)
Definition fallbacks : gmap string string :=
  list_to_map
    [("hero", "images/hero-bg.jpg");
     ("services", "images/residential-service.jpg");
     ("about", "images/radius-logo2.png");
     ("reviews", "images/hero-bg.jpg")].

Definition getFallbackImage (category : string) : string :=
  JS.or_else (fallbacks !! category) "images/hero-bg.jpg".

Definition altTemplates (imageName : string) : gmap string string :=
  list_to_map
    [("hero",
      "Professional plumbing services Milwaukee - "
        +:+ JS.replace_hyphens imageName);
     ("services",
      JS.replace_hyphens imageName
        +:+ " - Radius Works Milwaukee plumbing services");
     ("about", "Radius Works team - " +:+ JS.replace_hyphens imageName);
     ("reviews",
      "Customer satisfaction - " +:+ JS.replace_hyphens imageName)].

Definition generateAltText (category imageName : string) : string :=
  JS.or_else (altTemplates imageName !! category)
             ("Radius Works - " +:+ JS.replace_hyphens imageName).

Definition to_lower_char (c : ascii) : ascii :=
  let n := nat_of_ascii c in
  if (65 <=? n)%nat && (n <=? 90)%nat then ascii_of_nat (n + 32) else c.

Fixpoint toLowerCase (s : string) : string :=
  match s with
  | String c rest => String (to_lower_char c) (toLowerCase rest)
  | EmptyString => EmptyString
  end.

(** [src.split('.').pop()]: what follows the last dot (all of [s] when it
    has none); [acc] is the segment read so far, reversed. *)
Fixpoint last_segment (s : string) (acc : string) : string :=
  match s with
  | String c rest =>
      if Ascii.eqb c "." then last_segment rest ""
      else last_segment rest (String c acc)
  | EmptyString => String.rev acc
  end.

Definition mimeTypes : gmap string string :=
  list_to_map
    [("jpg", "image/jpeg"); ("jpeg", "image/jpeg"); ("png", "image/png");
     ("webp", "image/webp"); ("gif", "image/gif"); ("svg", "image/svg+xml")].

(** The extension is lowered over ASCII, which is all the keys of
    [mimeTypes] can match. *)
Definition getImageMimeType (src : string) : string :=
  let extension := toLowerCase (last_segment src "") in
  JS.or_else (mimeTypes !! extension) "image/jpeg".

(** [document.createElement('img')] with the attributes the builders set. *)
Definition new_img (src alt loading : string) (classList : list string)
    (category imageName : string) : Dom.Img :=
  {| Dom.src := src;
     Dom.alt := alt;
     Dom.loading := loading;
     Dom.classList := classList;
     Dom.fallbackLevel := None;
     Dom.fallbackSrc := Some (getFallbackImage category);
     Dom.category := Some category;
     Dom.imageName := Some imageName;
     Dom.display := "";
     Dom.kids := [] |}.

Definition createFallbackPictureElement (category imageName : string)
    (className : string) (options : Options) : Picture :=
  {| className := "enhanced-picture fallback-picture " +:+ className;
     category := category;
     imageName := imageName;
     children :=
       [ImgChild
          (new_img (getFallbackImage category)
                   (generateAltText category imageName)
                   (if eager options then "eager" else "lazy")
                   ["enhanced-image"; "fallback-image"]
                   category imageName)] |}.

Definition webp_sources (env : Env) (r : Metadata.ImageRecord)
  : list Child :=
  if JS.truthy (Metadata.webp r) && checkWebPSupport env
  then [SourceChild {| srcset := JS.to_str (Metadata.webp r);
                       type := "image/webp";
                       format := "webp" |}]
  else [].

Definition standard_sources (r : Metadata.ImageRecord) : list Child :=
  if JS.truthy (Metadata.optimized r)
  then [SourceChild
          {| srcset := JS.to_str (Metadata.optimized r);
             type := getImageMimeType (JS.to_str (Metadata.optimized r));
             format := "standard" |}]
  else [].

(** [None]: the read of the metadata threw a [TypeError], which the method
    does not catch. *)
Definition createPictureElement (env : Env) (m : Manager)
    (category imageName : string) (className : string)
    (options : Options) : option Picture :=
  match Metadata.lookup_record (builtins env) (imageMetadata m)
          category imageName with
  | Metadata.Throws => None
  | Metadata.Falsy =>
      Some (createFallbackPictureElement category imageName className options)
  | Metadata.Truthy imageData =>
      Some
        {| className := "enhanced-picture " +:+ className;
           category := category;
           imageName := imageName;
           children :=
             webp_sources env imageData ++ standard_sources imageData
             ++ [ImgChild
                   (new_img
                      (JS.to_str (Metadata.src imageData))
                      (if JS.truthy (Metadata.alt imageData)
                       then JS.to_str (Metadata.alt imageData)
                       else generateAltText category imageName)
                      (if bool_decide
                            (Metadata.priority imageData = Some "high")
                          || eager options
                       then "eager" else "lazy")
                      ["enhanced-image"]
                      category imageName)] |}
  end.

(** The [img] of a built picture (its last child). *)
Definition picture_img (p : Picture) : option Dom.Img :=
  match last (children p) with
  | Some (ImgChild i) => Some i
  | _ => None
  end.

(** A candidate is the modern-format one when the builder labelled it
    [data-format="webp"]; it is the standard one when labelled
    [data-format="standard"]. *)
Definition is_modern (c : Child) : bool :=
  match c with
  | SourceChild s => String.eqb (format s) "webp"
  | ImgChild _ => false
  end.

Definition is_standard (c : Child) : bool :=
  match c with
  | SourceChild s => String.eqb (format s) "standard"
  | ImgChild _ => false
  end.

(** The class tokens of a [className] string. *)
Fixpoint tokens_from (s : string) (cur : string) : list string :=
  let flush := if String.eqb cur "" then [] else [String.rev cur] in
  match s with
  | String c rest =>
      if JS.is_white_space c then flush ++ tokens_from rest ""
      else tokens_from rest (String c cur)
  | EmptyString => flush
  end.

Definition tokens (s : string) : list string :=
  foldl (λ acc c, Dom.class_add c acc) [] (tokens_from s "").

(** The built picture placed under the ancestors [outer] (nearest first):
    the image's nearest ancestor is the picture element itself. *)
Definition mount (p : Picture) (outer : list Dom.Element) : option Dom.Tree :=
  i ← picture_img p;
  Some (Dom.mkTree i (Dom.mkElement (tokens (className p)) [] :: outer)).

End Builder.

(** ** Loading the metadata: [loadImageMetadata], [createFallbackMetadata] *)

Module Loader.

Inductive error : Type :=
| TypeError (message : string)
| SyntaxError (message : string).

(** What an awaited promise gives: its value, or the rejection thrown at
    the [await]. *)
Inductive result (A : Type) : Type :=
| Ok (a : A)
| Throw (e : error).
Arguments Ok {A} a.
Arguments Throw {A} e.

Record Response : Type := mkResponse {
  json : result (option Metadata.t)
}.

(** The network as the method sees it: the outcome of [fetch(url)]. *)
Record Network : Type := mkNetwork {
  fetch : string → result Response
}.

Inductive LogEntry : Type :=
| Log (message : string)
| Warn (message : string).

Record State : Type := mkState {
  this : Manager;
  console : list LogEntry
}.

(** Statements that may throw and that keep what they did to the state. *)
Definition M (A : Type) : Type := State → result A * State.

Definition bind {A B} (c : M A) (k : A → M B) : M B :=
  λ s, match c s with
       | (Ok a, s1) => k a s1
       | (Throw e, s1) => (Throw e, s1)
       end.

Definition await {A} (p : result A) : M A := λ s, (p, s).

Definition try_catch {A} (body : M A) (handler : error → M A) : M A :=
  λ s, match body s with
       | (Ok a, s1) => (Ok a, s1)
       | (Throw e, s1) => handler e s1
       end.

Definition console_log (msg : string) : M unit :=
  λ s, (Ok tt, mkState (this s) (console s ++ [Log msg])).

Definition console_warn (msg : string) : M unit :=
  λ s, (Ok tt, mkState (this s) (console s ++ [Warn msg])).

Definition assign_imageMetadata (md : option Metadata.t) : M unit :=
  λ s, (Ok tt, mkState (set_imageMetadata md (this s)) (console s)).

Notation "'let*' x ':=' c 'in' k" := (bind c (λ x, k))
  (at level 10, x binder, c at level 100, k at level 200).

Definition createFallbackMetadata : Metadata.t :=
  {| Metadata.categories :=
       <["hero" := ∅]> (<["services" := ∅]> (<["about" := ∅]>
         (<["reviews" := ∅]> ∅)));
     Metadata.seo :=
       Some {| Metadata.openGraph :=
                 Some {| Metadata.defaultImage :=
                           Some "images/stock/hero/hero-main-plumber.png" |};
               Metadata.businessImages := None |} |}.

Definition loadImageMetadata (net : Network) : M unit :=
  try_catch
    (let* response := await (fetch net "scripts/image-metadata.json") in
     let* md := await (json response) in
     let* _ := assign_imageMetadata md in
     console_log "📊 Image metadata loaded successfully")
    (λ _,
     let* _ :=
       console_warn "⚠️ Could not load image metadata, using fallback system" in
     assign_imageMetadata (Some createFallbackMetadata)).

(** The metadata file cannot be loaded: the request or the parsing of its
    body is rejected. *)
Definition unavailable (net : Network) : Prop :=
  match fetch net "scripts/image-metadata.json" with
  | Throw _ => True
  | Ok response =>
      match json response with
      | Throw _ => True
      | Ok _ => False
      end
  end.

Definition warning : LogEntry :=
  Warn "⚠️ Could not load image metadata, using fallback system".

(** The state the [catch] block leaves. *)
Definition recovered (s : State) : State :=
  mkState (set_imageMetadata (Some createFallbackMetadata) (this s))
          (console s ++ [warning]).

(** A network whose request is rejected. *)
Definition offline : Network :=
  {| fetch := λ _, Throw (TypeError "Failed to fetch") |}.

(** A network that answers with a body that is not JSON. *)
Definition not_json : Network :=
  {| fetch := λ _,
       Ok {| json := Throw (SyntaxError "Unexpected token < in JSON") |} |}.

Definition fresh : State :=
  {| this := {| imageMetadata := None; fallbackStats := None |};
     console := [] |}.

End Loader.

(** ** The builder's contract in the words of the specification, and the
       inputs used as examples *)

Module BuilderSpec.
Import Builder.

Definition known_categories : list string :=
  ["hero"; "services"; "about"; "reviews"].

(** The category-specific phrase of the alt text templates. *)
Definition category_phrase : gmap string string :=
  list_to_map
    [("hero", "Professional plumbing services Milwaukee");
     ("services", "Radius Works Milwaukee plumbing services");
     ("about", "Radius Works team");
     ("reviews", "Customer satisfaction")].

(** "<category phrase> - <name with hyphens replaced by spaces>". *)
Definition phrase_then_name (phrase imageName : string) : string :=
  phrase +:+ " - " +:+ JS.replace_hyphens imageName.

(** "<name with hyphens replaced by spaces> - <category phrase>". *)
Definition name_then_phrase (phrase imageName : string) : string :=
  JS.replace_hyphens imageName +:+ " - " +:+ phrase.

(** The unit built for a category and a name absent from the metadata has
    the category's generic fallback path as base source and the phrase of
    the category, then the name, as alt text. *)
Definition degraded_unit_as_specified (env : Env) (m : Manager)
    (category imageName className : string) (options : Options) : Prop :=
  category ∈ known_categories →
  Metadata.own_record (imageMetadata m) category imageName = None →
  ∃ p i path phrase,
    createPictureElement env m category imageName className options = Some p
    ∧ picture_img p = Some i
    ∧ fallbacks !! category = Some path
    ∧ Dom.src i = path
    ∧ category_phrase !! category = Some phrase
    ∧ Dom.alt i = phrase_then_name phrase imageName.

(** The members of the built-in methods of [Object.prototype] in a browser
    of today. Each is a function: it has a non-empty [name], a [length]
    (zero for the methods without parameter), what it inherits from
    [Function.prototype] and [Object.prototype], and, for the constructor
    [Object], a [prototype] and the static methods; reading [caller] or
    [arguments] throws. *)
Definition browser_builtins (f name : string) : JS.read :=
  if bool_decide (name ∈ ["caller"; "arguments"]) then JS.ReadThrows
  else if String.eqb name "length"
  then if bool_decide (f ∈ ["toLocaleString"; "toString"; "valueOf"])
       then JS.ReadFalsy else JS.ReadTruthy
  else if bool_decide
            (name ∈ ["name"; "apply"; "bind"; "call"; "__proto__"]
                     ++ Metadata.object_prototype_methods)
  then JS.ReadTruthy
  else if String.eqb f "constructor"
          && bool_decide
               (name ∈ ["prototype"; "assign"; "create"; "defineProperties";
                        "defineProperty"; "entries"; "freeze"; "fromEntries";
                        "getOwnPropertyDescriptor";
                        "getOwnPropertyDescriptors"; "getOwnPropertyNames";
                        "getOwnPropertySymbols"; "getPrototypeOf"; "groupBy";
                        "hasOwn"; "is"; "isExtensible"; "isFrozen";
                        "isSealed"; "keys"; "preventExtensions"; "seal";
                        "setPrototypeOf"; "values"])
  then JS.ReadTruthy
  else JS.ReadFalsy.

Definition no_webp : Env :=
  {| toDataURL := λ _, "data:image/png;base64,iVBOR";
     builtins := browser_builtins |}.
Definition with_webp : Env :=
  {| toDataURL := λ _, "data:image/webp;base64,UklGR";
     builtins := browser_builtins |}.

Definition no_options : Options := {| eager := false |}.

Definition empty_manager : Manager :=
  {| imageMetadata := Some Loader.createFallbackMetadata;
     fallbackStats := None |}.

(** The record of the unit tests' mock metadata. *)
Definition test_image : Metadata.ImageRecord :=
  {| Metadata.src := Some "images/stock/hero/test-image.png";
     Metadata.webp := Some "images/optimized/hero/test-image.webp";
     Metadata.optimized := Some "images/optimized/hero/test-image.png";
     Metadata.alt := Some "Test image for fallback system";
     Metadata.title := None;
     Metadata.priority := Some "high" |}.

Definition test_manager : Manager :=
  {| imageMetadata :=
       Some {| Metadata.categories :=
                 <["hero" := <["test-image" := test_image]> ∅]> ∅;
               Metadata.seo := None |};
     fallbackStats := None |}.

End BuilderSpec.

(** ** The state machine in the words of the specification, and the elements
       used as examples *)

Module FallbackSpec.
Import Dom Fallback.

(** The transition rule on levels: what a failure event makes of the level
    [l] of an element, given whether it has a distinct alternate source. *)
Definition transition (l : JS.number) (distinct : bool) : JS.number :=
  match l with
  | JS.Num 0 => if distinct then JS.Num 1 else JS.Num 2
  | JS.Num 1 => JS.Num 2
  | _ => JS.Num 3
  end.

(** A level of the data model: an integer from 0 to 3. *)
Definition in_range (l : JS.number) : Prop :=
  ∃ z, l = JS.Num z ∧ 0 ≤ z ≤ 3.

Definition level_le (a b : JS.number) : Prop :=
  match a, b with
  | JS.Num x, JS.Num y => x ≤ y
  | _, _ => False
  end.

(** The level of the element after [n] failure events. *)
Definition level_after (n : nat) (m : Manager) (t : Tree) : JS.number :=
  level (img (snd (fail_n n m t))).

(** The attributes of the image that class and child updates leave alone. *)
Definition same_data (i j : Img) : Prop :=
  src i = src j ∧ alt i = alt j ∧ loading i = loading j
  ∧ fallbackLevel i = fallbackLevel j ∧ fallbackSrc i = fallbackSrc j
  ∧ category i = category j ∧ imageName i = imageName j
  ∧ display i = display j.

(** A reference that denotes an element of the tree. *)
Definition valid (r : Ref) (t : Tree) : Prop :=
  match r with
  | Self => True
  | Anc n => is_Some (ancestors t !! n)
  end.

(** The Failed state as [handleFinalFallback] leaves an element: level 3,
    hidden, tagged as failed, its container (when it has one) marked as
    failed and holding the error indicator. *)
Definition in_Failed (t : Tree) : Prop :=
  fallbackLevel (img t) = Some "3"
  ∧ display (img t) = "none"
  ∧ "fallback-final" ∈ classList (img t)
  ∧ match closest container_selector t with
    | Some container =>
        "image-failed" ∈ classes_of container t
        ∧ has_descendant [["error-placeholder"]] container t = true
    | None => True
    end.


(** The placeholder and failed presentation tags: those the handlers put on
    the element and those they put on its container. *)
Definition presentation_tags : list string :=
  ["fallback-tertiary"; "fallback-final"; "image-placeholder"; "image-failed"].

(** A success event marks the element loaded, clears the loading tag and
    every presentation tag on the element and on its container, and keeps
    the level. *)
Definition success_as_specified (t : Tree) : Prop :=
  let t' := handleImageLoad t in
  "loaded" ∈ classList (img t')
  ∧ ("loading" ∉ classList (img t'))
  ∧ (∀ tag, tag ∈ presentation_tags → tag ∉ classList (img t'))
  ∧ (∀ tag container, tag ∈ presentation_tags →
       closest container_selector t = Some container →
       tag ∉ classes_of container t')
  ∧ level (img t') = level (img t).

(** Once marked loaded, or at level 3, a failure event keeps the level. *)
Definition terminal_flags_freeze_level (m : Manager) (t : Tree) : Prop :=
  ("loaded" ∈ classList (img t) ∨ level (img t) = JS.Num 3) →
  level (img (snd (handleEnhancedImageError m t))) = level (img t).

(** The image of the unit tests' hero picture, inside an
    [.image-container]. *)
Definition hero_tree : Tree :=
  {| img := Builder.new_img "images/stock/hero/test-image.png"
              "Test image for fallback system" "eager" ["enhanced-image"]
              "hero" "test-image";
     ancestors := [ {| el_classList := ["enhanced-picture"]; el_kids := [] |};
                    {| el_classList := ["image-container"]; el_kids := [] |} ] |}.

Definition new_manager : Manager :=
  {| imageMetadata := None; fallbackStats := None |}.

(** The hero image after two failure events (at Placeholder) and after
    three (at Failed). *)
Definition hero_placeholder : Tree := snd (fail_n 2 new_manager hero_tree).
Definition hero_failed : Tree := snd (fail_n 3 new_manager hero_tree).



(** A team photo of the about section, written in the page without a
    [data-fallback-src]. *)
Definition team_photo : Tree :=
  {| img := {| src := "images/stock/about/team-photo.jpg";
               alt := "Radius Works team";
               loading := "lazy";
               classList := ["team-img"];
               fallbackLevel := None;
               fallbackSrc := None;
               category := Some "about";
               imageName := Some "team-photo";
               display := "";
               kids := [] |};
     ancestors := [ {| el_classList := ["team-member"]; el_kids := [] |};
                    {| el_classList := ["about-image"]; el_kids := [] |} ] |}.

Definition team_world : Handlers.World :=
  {| Handlers.manager := Some new_manager; Handlers.tree := team_photo |}.

End FallbackSpec.

(** ** The recorder seen key by key *)

Module StatsHistory.
Import Stats.

(** The levels recorded for [key] since the last reset, oldest first. *)
Definition recorded_since_reset (key : string) (os : list op)
  : list JS.number :=
  foldl (λ acc o,
           match o with
           | Record_ c n l =>
               if decide (stat_key c n = key) then acc ++ [l] else acc
           | Reset => []
           end)
        [] os.

(** A category text that cannot be confused with a name: it has no "/". *)
Fixpoint slash_free (s : string) : bool :=
  match s with
  | String c rest => negb (Ascii.eqb c "/") && slash_free rest
  | EmptyString => true
  end.

End StatsHistory.

(** ** Steps that touch classes only *)

Module Frame.
Import Dom FallbackSpec.

(** The tree [t'] comes from [t] by a step that leaves the image with the
    data of [i] and adds or removes no node. *)
Definition steps_like (t' : Tree) (i : Img) (t : Tree) : Prop :=
  same_data (img t') i
  ∧ kids (img t') = kids (img t)
  ∧ (el_kids <$> ancestors t') = (el_kids <$> ancestors t).

End Frame.

(** ** Lazy-Load Scheduler: [setupLazyLoading], [loadImage], [loadAllImages]

    [loadImage] returns a promise. Its executor runs at once (up to the
    request for the image); the [onload] or [onerror] callback of the
    temporary image runs later. The two parts are modelled apart, and
    [loadImage] composes them for a request whose outcome is known.  The
    [loading] field of an image is its content attribute; the page is the
    list of its [img] elements in document order, and the elements of class
    [lazy-image] are taken to be among them. *)

Module LazyLoad.
Import Dom.

(** An image of the page with its [data-src]. *)
Record LazyImg : Type := mkLazy {
  element : Tree;
  dataSrc : option string
}.

Definition on_element (f : Tree → Tree) (i : LazyImg) : LazyImg :=
  mkLazy (f (element i)) (dataSrc i).

(** The page: its images, the manager with its set of loaded URLs, and the
    targets the intersection observer watches ([None] when the manager has
    no observer). *)
Record Page : Type := mkPage {
  images : list LazyImg;
  manager : Manager;
  loadedImages : gset string;
  observed : option (gset nat)
}.

(** [img.dataset.src || img.src]. *)
Definition imageUrl (i : LazyImg) : string :=
  JS.or_else (dataSrc i) (src (img (element i))).

(** The executor of the promise: nothing to do for a URL already loaded;
    otherwise the image is tagged and the request is issued. The result
    holds the URL requested, if any. *)
Definition loadImage_start (loaded : gset string) (i : LazyImg)
  : LazyImg * option string :=
  if bool_decide (imageUrl i ∈ loaded) then (i, None)
  else (on_element (on_classList (class_add "loading") Self) i,
        Some (imageUrl i)).

(** The image once [loadImage] has tagged it. *)
Definition tagged (i : LazyImg) : LazyImg :=
  on_element (on_classList (class_add "loading") Self) i.

(** How a promise ends. *)
Inductive settled : Type :=
| Resolved
| Rejected (message : string).

(** [tempImg.onload] for the request of [url]. *)
Definition tempImg_onload (url : string) (loaded : gset string) (i : LazyImg)
  : gset string * LazyImg :=
  let i := on_element (on_img (set_src url)) i in
  let i := on_element (on_classList (class_remove "loading") Self) i in
  let i := on_element (on_classList (class_add "loaded") Self) i in
  (loaded ∪ {[url]}, i).

(** [tempImg.onerror] for the request of [url]. *)
Definition tempImg_onerror (url : string) (m : Manager) (i : LazyImg)
  : Manager * LazyImg * settled :=
  let '(m, t) := Fallback.handleImageError m (element i) in
  (m, mkLazy t (dataSrc i), Rejected ("Failed to load image: " +:+ url)).

(** [loadImage(img)] up to the settling of its promise, on a network where
    the request for a URL succeeds exactly when [net url] holds. *)
Definition loadImage (net : string → bool) (m : Manager)
    (loaded : gset string) (i : LazyImg)
  : Manager * gset string * LazyImg * settled :=
  match loadImage_start loaded i with
  | (i, None) => (m, loaded, i, Resolved)
  | (i, Some url) =>
      if net url
      then let '(loaded, i) := tempImg_onload url loaded i in
           (m, loaded, i, Resolved)
      else let '(m, i, r) := tempImg_onerror url m i in
           (m, loaded, i, r)
  end.

(** [img[loading="lazy"], .lazy-image] on an image. *)
Definition is_lazy (i : LazyImg) : bool :=
  String.eqb (loading (img (element i))) "lazy"
  || contains "lazy-image" (classList (img (element i))).

(** The indices of the lazy images of [l], in document order, when [l]
    starts at index [n] of the page. *)
Fixpoint lazy_indices_from (n : nat) (l : list LazyImg) : list nat :=
  match l with
  | [] => []
  | i :: rest =>
      (if is_lazy i then [n] else []) ++ lazy_indices_from (S n) rest
  end.

Definition lazy_indices (l : list LazyImg) : list nat :=
  lazy_indices_from 0 l.

(** [loadAllImages()]: the executors of all the promises, which run before
    any callback; with the URLs requested, in order. *)
Definition loadAllImages (p : Page) : Page * list string :=
  let started :=
    (λ i, if is_lazy i then loadImage_start (loadedImages p) i else (i, None))
      <$> images p in
  (mkPage (fst <$> started) (manager p) (loadedImages p) (observed p),
   omap snd started).

(** [setupLazyLoading()] on a runtime that has ([true]) or lacks ([false])
    [IntersectionObserver]. *)
Definition setupLazyLoading (hasObserver : bool) (p : Page)
  : Page * list string :=
  if negb hasObserver then loadAllImages p
  else
    (mkPage
       ((λ i, if is_lazy i
              then on_element (on_classList (class_add "loading") Self) i
              else i) <$> images p)
       (manager p) (loadedImages p)
       (Some (list_to_set (lazy_indices (images p)))),
     []).

(** One entry of the observer's callback: its target and whether it
    intersects. *)
Record Entry : Type := mkEntry {
  target : nat;
  isIntersecting : bool
}.

Definition unobserve (n : nat) (o : option (gset nat)) : option (gset nat) :=
  (λ s, s ∖ {[n]}) <$> o.

(** The body of the callback for one entry. *)
Definition on_entry (acc : Page * list string) (e : Entry)
  : Page * list string :=
  let '(p, requests) := acc in
  if isIntersecting e
  then
    match images p !! target e with
    | Some i =>
        let '(i, request) := loadImage_start (loadedImages p) i in
        (mkPage (<[target e := i]> (images p)) (manager p) (loadedImages p)
                (unobserve (target e) (observed p)),
         requests ++ option_list request)
    | None => acc
    end
  else acc.

(** The observer watches the image at index [k]. *)
Definition watches (p : Page) (k : nat) : Prop :=
  match observed p with
  | Some s => k ∈ s
  | None => False
  end.

(** [loadImage] would issue a request for [i]: the image is lazy and its
    URL is not loaded yet. *)
Definition wanted (loaded : gset string) (i : LazyImg) : Prop :=
  is_lazy i = true ∧ imageUrl i ∉ loaded.

#[global] Instance wanted_dec loaded i : Decision (wanted loaded i).
Proof. unfold wanted. apply _. Defined.

(** The observer's callback on its entries. *)
Definition on_intersection (entries : list Entry) (p : Page)
  : Page * list string :=
  foldl on_entry (p, []) entries.

(** A page of the examples: two lazy images, the second with a URL loaded
    before, both watched. *)
Definition team_large : LazyImg :=
  mkLazy FallbackSpec.team_photo (Some "images/team-large.jpg").

Definition team_small : LazyImg :=
  mkLazy FallbackSpec.team_photo (Some "images/team-small.jpg").

Definition team_page : Page :=
  mkPage [team_large; team_small] FallbackSpec.new_manager
         {["images/team-small.jpg"]} (Some (list_to_set [0; 1]%nat)).

End LazyLoad.

(** ** The Open Graph image: [updateOpenGraphImage]

    The document's [meta] elements, in document order; they are taken to be
    in the head, where a new one is appended. *)

Module Head.

Record Meta : Type := mkMeta {
  property : option string;
  content : option string
}.

(** [meta[property="og:image"]]. *)
Definition is_og_image (m : Meta) : bool :=
  bool_decide (property m = Some "og:image").

(** [document.querySelector('meta[property="og:image"]')], as an index. *)
Fixpoint querySelector_og (metas : list Meta) : option nat :=
  match metas with
  | [] => None
  | m :: rest =>
      if is_og_image m then Some 0%nat else S <$> querySelector_og rest
  end.

Definition setAttribute_content (v : string) (m : Meta) : Meta :=
  mkMeta (property m) (Some v).

Definition updateOpenGraphImage (imageSrc : string) (metas : list Meta)
  : list Meta :=
  let '(metas, ogImage) :=
    match querySelector_og metas with
    | Some i => (metas, i)
    | None =>
        (metas ++ [ {| property := Some "og:image"; content := None |} ],
         length metas)
    end in
  alter (setAttribute_content imageSrc) ogImage metas.

(** The content of the document's Open Graph image, as a reader of the page
    finds it. *)
Definition og_image (metas : list Meta) : option string :=
  i ← querySelector_og metas; m ← metas !! i; content m.

End Head.

(** ** Dropping WebP sources: [setupWebPSupport] *)

Module WebPSupport.
Import Builder.

(** [source[type="image/webp"]]; the selector compares the value of [type]
    without regard to ASCII case. *)
Definition is_webp_source (c : Child) : bool :=
  match c with
  | SourceChild s => String.eqb (toLowerCase (type s)) "image/webp"
  | ImgChild _ => false
  end.

Definition remove_webp_sources (p : Picture) : Picture :=
  {| className := className p;
     category := category p;
     imageName := imageName p;
     children := filter (λ c, is_webp_source c = false) (children p) |}.

(** [setupWebPSupport()] on the pictures of the document. *)
Definition setupWebPSupport (env : Env) (pictures : list Picture)
  : list Picture :=
  if negb (checkWebPSupport env) then remove_webp_sources <$> pictures
  else pictures.

(** A picture of the examples, with a WebP candidate. *)
Definition webp_picture : Picture :=
  {| className := "enhanced-picture";
     category := "hero";
     imageName := "test-image";
     children :=
       [SourceChild (mkSource "images/optimized/hero/test-image.webp"
                              "image/webp" "webp");
        ImgChild (Dom.img FallbackSpec.hero_tree)] |}.

End WebPSupport.

(** * Properties *)

(** ** Stats Recorder *)

Module StatsFacts.
Import Stats.

Lemma track_lookup category imageName lvl (fs : store) :
  getFallbackStats (trackFallbackUsage category imageName lvl fs)
    !! stat_key category imageName
  = Some (push_level lvl (entry fs (stat_key category imageName))).
Proof.
  unfold trackFallbackUsage, entry, getFallbackStats; simpl.
  destruct (default ∅ fs !! stat_key category imageName) as [e|] eqn:E.
  - rewrite lookup_alter_eq, E. reflexivity.
  - rewrite lookup_alter_eq, lookup_insert_eq. reflexivity.
Qed.

Lemma track_lookup_ne category imageName lvl (fs : store) key :
  key ≠ stat_key category imageName →
  getFallbackStats (trackFallbackUsage category imageName lvl fs) !! key
  = getFallbackStats fs !! key.
Proof.
  intros Hne. unfold trackFallbackUsage, getFallbackStats; simpl.
  destruct (default ∅ fs !! stat_key category imageName) as [e|] eqn:E.
  - rewrite lookup_alter_ne by congruence. reflexivity.
  - rewrite lookup_alter_ne, lookup_insert_ne by congruence. reflexivity.
Qed.

Lemma consistent_empty : consistent None.
Proof. intros key e. unfold getFallbackStats; simpl. by rewrite lookup_empty. Qed.

Lemma consistent_entry fs key :
  consistent fs →
  count (entry fs key) = Z.of_nat (List.length (levels (entry fs key))).
Proof.
  intros H. unfold entry.
  destruct (getFallbackStats fs !! key) as [e|] eqn:E; simpl; eauto.
Qed.

Lemma consistent_track category imageName lvl fs :
  consistent fs → consistent (trackFallbackUsage category imageName lvl fs).
Proof.
  intros H key e.
  destruct (decide (key = stat_key category imageName)) as [->|Hne].
  - rewrite track_lookup. intros [= <-]. simpl.
    rewrite length_app, (consistent_entry _ _ H). simpl. lia.
  - rewrite track_lookup_ne by done. apply H.
Qed.

Lemma consistent_reset fs : consistent (resetFallbackStats fs).
Proof. intros key e. unfold getFallbackStats; simpl. by rewrite lookup_empty. Qed.

Lemma consistent_run_ops os fs : consistent fs → consistent (run_ops os fs).
Proof.
  revert fs. induction os as [|o os IH]; intros fs H; simpl; [done|].
  apply IH. destruct o; simpl; auto using consistent_track, consistent_reset.
Qed.

(** C8. From an empty recorder (never written, or just reset), recording
    (hero, "x", 1) and then (hero, "x", 2) leaves under the key "hero/x" a
    count of 2 and the levels [1, 2]; [resetFallbackStats] leaves an empty
    mapping, whatever was recorded. *)
Theorem record_twice_then_reset :
  let twice fs :=
    trackFallbackUsage (Some "hero") (Some "x") (JS.Num 2)
      (trackFallbackUsage (Some "hero") (Some "x") (JS.Num 1) fs) in
  getFallbackStats (twice None) !! "hero/x"
  = Some {| levels := [JS.Num 1; JS.Num 2]; count := 2 |}
  ∧ getFallbackStats (twice (Some ∅)) !! "hero/x"
    = Some {| levels := [JS.Num 1; JS.Num 2]; count := 2 |}
  ∧ (∀ fs, getFallbackStats (resetFallbackStats fs) = ∅)
  ∧ size (getFallbackStats (resetFallbackStats (twice None))) = 0%nat.
Proof.
  intros twice.
  split; [vm_compute; reflexivity|].
  split; [vm_compute; reflexivity|].
  split; [intros fs|]; reflexivity.
Qed.

(** C10. After any sequence of record and reset operations on a new
    recorder, every key that is present has a count equal to the length of
    its levels; and one record call, on any recorder, appends exactly its
    level to the levels of its key, adds exactly one to the count of that
    key, and leaves every other key as it was. *)
Theorem count_is_length_of_levels :
  (∀ os key e,
     getFallbackStats (run_ops os None) !! key = Some e →
     count e = Z.of_nat (List.length (levels e)))
  ∧ (∀ fs category imageName lvl,
       let key := stat_key category imageName in
       let fs' := trackFallbackUsage category imageName lvl fs in
       ∃ e', getFallbackStats fs' !! key = Some e'
             ∧ levels e' = levels (entry fs key) ++ [lvl]
             ∧ count e' = count (entry fs key) + 1
             ∧ ∀ other, other ≠ key →
                 getFallbackStats fs' !! other = getFallbackStats fs !! other).
Proof.
  split.
  - intros os. apply (consistent_run_ops os None consistent_empty).
  - intros fs category imageName lvl key fs'.
    exists (push_level lvl (entry fs key)). subst key fs'.
    split; [apply track_lookup|].
    split; [reflexivity|]. split; [reflexivity|].
    intros other Hne. by apply track_lookup_ne.
Qed.

Lemma count_is_length_of_levels_witness :
  let os := [Record_ (Some "hero") (Some "a") (JS.Num 0); Reset;
             Record_ (Some "hero") (Some "x") (JS.Num 1);
             Record_ (Some "hero") (Some "x") (JS.Num 2)] in
  let e := {| levels := [JS.Num 1; JS.Num 2]; count := 2 |} in
  getFallbackStats (run_ops os None) !! "hero/x" = Some e
  ∧ count e = Z.of_nat (List.length (levels e)).
Proof.
  intros os e. split.
  - vm_compute. reflexivity.
  - apply (proj1 count_is_length_of_levels os "hero/x" e).
    vm_compute. reflexivity.
Defined.

End StatsFacts.

(** ** Metadata loading *)

Module LoaderFacts.
Import Loader.

Lemma load_never_throws net s : fst (loadImageMetadata net s) = Ok tt.
Proof.
  unfold loadImageMetadata, try_catch, bind, await.
  destruct (fetch net _) as [response|e]; simpl; [|reflexivity].
  destruct (json response) as [md|e]; reflexivity.
Qed.

Lemma load_unavailable net s :
  unavailable net → loadImageMetadata net s = (Ok tt, recovered s).
Proof.
  unfold unavailable, loadImageMetadata, try_catch, bind, await.
  destruct (fetch net _) as [response|e]; simpl; [|reflexivity].
  destruct (json response) as [md|e]; [intros []|reflexivity].
Qed.

Lemma skeleton_categories category :
  category ∈ ["hero"; "services"; "about"; "reviews"] →
  Metadata.categories createFallbackMetadata !! category = Some ∅.
Proof.
  intros H. repeat (apply elem_of_cons in H as [-> | H]); try reflexivity.
  by apply elem_of_nil in H.
Qed.

(** C9. Loading the metadata never throws to its caller. When the file
    cannot be loaded (the request or the parsing of its body is rejected),
    the manager's metadata becomes the skeleton, one warning is written to
    the console and nothing else changes; the skeleton has an empty mapping
    for hero, services, about and reviews and the default social-preview
    image; and a rejected request is such a failing load. *)
Theorem metadata_unavailable_is_recovered :
  (∀ net s, ∃ s', loadImageMetadata net s = (Ok tt, s'))
  ∧ (∀ net s, unavailable net →
       loadImageMetadata net s = (Ok tt, recovered s)
       ∧ imageMetadata (this (recovered s)) = Some createFallbackMetadata
       ∧ console (recovered s) = console s ++ [warning])
  ∧ (∀ category, category ∈ ["hero"; "services"; "about"; "reviews"] →
       Metadata.categories createFallbackMetadata !! category = Some ∅)
  ∧ (Metadata.seo createFallbackMetadata
     = Some {| Metadata.openGraph :=
                 Some {| Metadata.defaultImage :=
                           Some "images/stock/hero/hero-main-plumber.png" |};
               Metadata.businessImages := None |})
  ∧ (unavailable offline
     ∧ imageMetadata (this (snd (loadImageMetadata offline fresh)))
       = Some createFallbackMetadata).
Proof.
  split; [|split; [|split; [|split]]].
  - intros net s. exists (snd (loadImageMetadata net s)).
    rewrite <- (load_never_throws net s). by destruct (loadImageMetadata net s).
  - intros net s H. split; [by apply load_unavailable|]. split; reflexivity.
  - apply skeleton_categories.
  - reflexivity.
  - split; [exact I|reflexivity].
Qed.

Lemma metadata_unavailable_is_recovered_witness :
  unavailable not_json
  ∧ loadImageMetadata not_json fresh = (Ok tt, recovered fresh)
  ∧ "about" ∈ ["hero"; "services"; "about"; "reviews"]
  ∧ Metadata.categories createFallbackMetadata !! "about" = Some ∅.
Proof.
  split; [exact I|].
  split.
  - apply (proj1 (proj2 metadata_unavailable_is_recovered) not_json fresh).
    exact I.
  - split.
    + repeat constructor.
    + apply (proj1 (proj2 (proj2 metadata_unavailable_is_recovered))).
      repeat constructor.
Defined.

End LoaderFacts.

(** ** Picture Element Builder *)

Module BuilderFacts.
Import Builder BuilderSpec.

Lemma or_else_some s d : s ≠ "" → JS.or_else (Some s) d = s.
Proof.
  intros H. unfold JS.or_else.
  destruct (String.eqb_spec s ""); [contradiction|reflexivity].
Qed.

Lemma append_nonempty a b : b ≠ "" → a +:+ b ≠ "".
Proof. intros Hb. destruct a; simpl; [exact Hb|discriminate]. Qed.

Lemma generateAltText_services imageName :
  generateAltText "services" imageName
  = JS.replace_hyphens imageName +:+ " - Radius Works Milwaukee plumbing services".
Proof.
  unfold generateAltText.
  replace (altTemplates imageName !! "services")
    with (Some (JS.replace_hyphens imageName
                 +:+ " - Radius Works Milwaukee plumbing services"))
    by (vm_compute; reflexivity).
  apply or_else_some, append_nonempty. discriminate.
Qed.

Lemma falsy_builds_fallback env m category imageName className options :
  Metadata.lookup_record (builtins env) (imageMetadata m) category imageName
  = Metadata.Falsy →
  createPictureElement env m category imageName className options
  = Some (createFallbackPictureElement category imageName className options).
Proof. intros H. unfold createPictureElement. by rewrite H. Qed.

(** For the four categories, the read of the metadata finds nothing exactly
    for the names that the document does not hold and that plain objects
    do not inherit. *)
Lemma absent_is_not_found b md category imageName :
  category ∈ known_categories →
  Metadata.own_record md category imageName = None →
  Metadata.inherits imageName = false →
  Metadata.lookup_record b md category imageName = Metadata.Falsy.
Proof.
  intros Hc Hown Hinh.
  unfold Metadata.lookup_record, Metadata.own_record in *.
  destruct md as [m|]; [|reflexivity]. simpl in Hown.
  destruct (Metadata.categories m !! category) as [section|]; simpl in Hown.
  - unfold Metadata.plain_object_get. by rewrite Hown, Hinh.
  - unfold known_categories in Hc.
    repeat (apply elem_of_cons in Hc as [-> | Hc]);
      [ | | | | inversion Hc]; reflexivity.
Qed.

(** C6 as the specification words it fails for the services category,
    whose template puts the name first. *)
Lemma services_alt_puts_name_first :
  ¬ degraded_unit_as_specified no_webp empty_manager
      "services" "bathroom-repair" "" no_options.
Proof.
  intros H. destruct H as (p & i & path & phrase & Hp & Hi & _ & _ & Hph & Ha).
  - repeat constructor.
  - reflexivity.
  - vm_compute in Hp. injection Hp as <-.
    vm_compute in Hi. injection Hi as <-.
    vm_compute in Hph. injection Hph as <-.
    vm_compute in Ha. discriminate Ha.
Qed.

(** A name that the metadata does not hold but that every plain object
    inherits is found all the same: the builder takes the record branch and
    the image gets the text of a missing source. *)
Lemma inherited_name_is_found :
  Metadata.own_record (imageMetadata empty_manager) "hero" "constructor" = None
  ∧ ∃ p i,
      createPictureElement no_webp empty_manager "hero" "constructor" ""
        no_options = Some p
      ∧ picture_img p = Some i
      ∧ Dom.src i = "undefined"
      ∧ Dom.alt i = "Professional plumbing services Milwaukee - constructor".
Proof.
  split; [reflexivity|]. eexists _, _.
  split; [vm_compute; reflexivity|]. split; [reflexivity|].
  split; reflexivity.
Qed.

(** C6, amended. For hero, services, about and reviews and a name that the
    metadata does not hold and that plain objects do not inherit, the built
    unit's image has the category's path of the fallback table as base
    source; its alt text is the phrase of the category, " - " and the name
    with hyphens replaced by spaces for hero, about and reviews, and the
    name first and the phrase second for services. *)
Theorem degraded_unit_source_and_alt env m category imageName className options :
  category ∈ known_categories →
  Metadata.own_record (imageMetadata m) category imageName = None →
  Metadata.inherits imageName = false →
  ∃ p i path phrase,
    createPictureElement env m category imageName className options = Some p
    ∧ picture_img p = Some i
    ∧ fallbacks !! category = Some path
    ∧ Dom.src i = path
    ∧ category_phrase !! category = Some phrase
    ∧ Dom.alt i = (if String.eqb category "services"
                   then name_then_phrase phrase imageName
                   else phrase_then_name phrase imageName).
Proof.
  intros Hc Hown Hinh.
  rewrite (falsy_builds_fallback _ _ _ _ _ _
             (absent_is_not_found _ _ _ _ Hc Hown Hinh)).
  unfold known_categories in Hc.
  repeat (apply elem_of_cons in Hc as [-> | Hc]);
    [ | | | | inversion Hc].
  - eexists _, _, _, _. split; [reflexivity|].
    repeat split; vm_compute; reflexivity.
  - eexists _, _, _, _. split; [reflexivity|]. split; [reflexivity|].
    split; [vm_compute; reflexivity|].
    split; [vm_compute; reflexivity|]. split; [vm_compute; reflexivity|].
    simpl. rewrite generateAltText_services. reflexivity.
  - eexists _, _, _, _. split; [reflexivity|].
    repeat split; vm_compute; reflexivity.
  - eexists _, _, _, _. split; [reflexivity|].
    repeat split; vm_compute; reflexivity.
Qed.

Lemma degraded_unit_source_and_alt_witness :
  ∃ p i, createPictureElement no_webp empty_manager
           "services" "bathroom-repair" "" no_options = Some p
       ∧ picture_img p = Some i
       ∧ Dom.src i = "images/residential-service.jpg"
       ∧ Dom.alt i = "bathroom repair - Radius Works Milwaukee plumbing services".
Proof.
  destruct (degraded_unit_source_and_alt no_webp empty_manager
              "services" "bathroom-repair" "" no_options)
    as (p & i & path & phrase & Hp & Hi & Hpath & Hsrc & Hphrase & Halt).
  - repeat constructor.
  - reflexivity.
  - reflexivity.
  - exists p, i. split; [exact Hp|]. split; [exact Hi|].
    vm_compute in Hpath. injection Hpath as <-.
    vm_compute in Hphrase. injection Hphrase as <-.
    split; [exact Hsrc|exact Halt].
Defined.

Lemma standard_sources_not_modern r :
  Forall (λ c, is_modern c = false) (standard_sources r).
Proof.
  unfold standard_sources. destruct (JS.truthy _); repeat constructor.
Qed.

Lemma standard_sources_standard r :
  JS.truthy (Metadata.optimized r) = true →
  ∃ c, standard_sources r = [c] ∧ is_standard c = true.
Proof.
  intros H. unfold standard_sources. rewrite H. eexists. split; reflexivity.
Qed.

(** C7. For a record with a WebP source the picture is built, and: when the
    probe reports support, its first child is the WebP candidate, no other
    child is one, and every standard candidate comes after it (and there
    is one when the record has an optimized source); when the probe
    reports no support, no child of the picture is a WebP candidate. *)
Theorem modern_candidate_follows_negotiator
    env m category imageName className options r :
  Metadata.lookup_record (builtins env) (imageMetadata m) category imageName
  = Metadata.Truthy r →
  JS.truthy (Metadata.webp r) = true →
  ∃ p,
    createPictureElement env m category imageName className options = Some p
    ∧ (checkWebPSupport env = true →
         ∃ rest,
           children p
           = SourceChild {| srcset := JS.to_str (Metadata.webp r);
                            type := "image/webp"; format := "webp" |} :: rest
           ∧ Forall (λ c, is_modern c = false) rest
           ∧ (JS.truthy (Metadata.optimized r) = true →
                ∃ c, rest !! 0%nat = Some c ∧ is_standard c = true)
           ∧ ∀ i j ci cj,
               children p !! i = Some ci → is_modern ci = true →
               children p !! j = Some cj → is_standard cj = true →
               (i < j)%nat)
    ∧ (checkWebPSupport env = false →
         Forall (λ c, is_modern c = false) (children p)).
Proof.
  intros Hr Hw. unfold createPictureElement. rewrite Hr.
  eexists. split; [reflexivity|]. simpl.
  unfold webp_sources. rewrite Hw. split; intros Hs; rewrite Hs; simpl.
  - eexists. split; [reflexivity|].
    assert (Hrest : Forall (λ c, is_modern c = false)
              (standard_sources r ++
               [ImgChild
                  (new_img (JS.to_str (Metadata.src r))
                     (if JS.truthy (Metadata.alt r)
                      then JS.to_str (Metadata.alt r)
                      else generateAltText category imageName)
                     (if bool_decide (Metadata.priority r = Some "high")
                         || eager options then "eager" else "lazy")
                     ["enhanced-image"] category imageName)])).
    { apply Forall_app. split; [apply standard_sources_not_modern|].
      repeat constructor. }
    split; [exact Hrest|]. split.
    + intros Ho. destruct (standard_sources_standard r Ho) as (c & -> & Hc).
      exists c. split; [reflexivity|exact Hc].
    + intros i j ci cj Hi Hmi Hj Hsj.
      destruct i as [|i].
      * destruct j as [|j]; [|lia].
        simpl in Hj. injection Hj as <-. discriminate Hsj.
      * simpl in Hi. rewrite Forall_lookup in Hrest.
        specialize (Hrest _ _ Hi). congruence.
  - apply Forall_app. split; [apply standard_sources_not_modern|].
    repeat constructor.
Qed.

Lemma modern_candidate_follows_negotiator_witness :
  let build env := createPictureElement env test_manager "hero" "test-image" ""
                     no_options in
  (∃ p rest,
     build with_webp = Some p
     ∧ children p
       = SourceChild {| srcset := "images/optimized/hero/test-image.webp";
                        type := "image/webp"; format := "webp" |} :: rest
     ∧ Forall (λ c, is_modern c = false) rest)
  ∧ (∃ p, build no_webp = Some p
          ∧ Forall (λ c, is_modern c = false) (children p)).
Proof.
  intros build. split.
  - destruct (modern_candidate_follows_negotiator with_webp
                test_manager "hero" "test-image" "" no_options test_image
                eq_refl eq_refl) as (p & Hp & Hyes & _).
    destruct (Hyes eq_refl) as (rest & Hshape & Hrest & _).
    exists p, rest. split; [exact Hp|]. split; [exact Hshape|exact Hrest].
  - destruct (modern_candidate_follows_negotiator no_webp
                test_manager "hero" "test-image" "" no_options test_image
                eq_refl eq_refl) as (p & Hp & _ & Hno).
    exists p. split; [exact Hp|]. apply (Hno eq_refl).
Defined.

End BuilderFacts.

(** ** Fallback State Machine *)

Module FallbackFacts.
Import Dom Fallback FallbackSpec.

(** *** Class lists and selectors *)

Lemma contains_class_add c x l :
  contains x (class_add c l) = contains x l || bool_decide (x = c).
Proof.
  unfold class_add, contains.
  destruct (bool_decide (c ∈ l)) eqn:E.
  - apply bool_decide_eq_true in E.
    destruct (bool_decide (x = c)) eqn:Ex; [|by rewrite orb_false_r].
    apply bool_decide_eq_true in Ex. subst.
    rewrite orb_true_r. by apply bool_decide_eq_true.
  - apply eq_true_iff_eq. rewrite orb_true_iff, !bool_decide_eq_true.
    rewrite elem_of_app, list_elem_of_singleton. tauto.
Qed.

Lemma elem_of_class_add c x l : x ∈ class_add c l ↔ x ∈ l ∨ x = c.
Proof.
  rewrite <- (bool_decide_eq_true (x ∈ class_add c l)).
  change (bool_decide (x ∈ class_add c l)) with (contains x (class_add c l)).
  rewrite contains_class_add, orb_true_iff. unfold contains.
  by rewrite !bool_decide_eq_true.
Qed.

Lemma class_add_present c l : c ∈ l → class_add c l = l.
Proof.
  intros H. unfold class_add, contains. by rewrite bool_decide_eq_true_2.
Qed.

Lemma elem_of_class_remove c x l : x ∈ class_remove c l ↔ x ∈ l ∧ x ≠ c.
Proof. unfold class_remove. rewrite list_elem_of_filter. tauto. Qed.

(** Two class lists that agree on the classes a selector names match it
    alike. *)
Lemma matches_agree (sel : selector) l l' :
  (∀ x, x ∈ concat sel → (x ∈ l ↔ x ∈ l')) →
  matches sel l = matches sel l'.
Proof.
  unfold matches. induction sel as [|a sel IH]; intros H; simpl; [done|].
  f_equal.
  - assert (Ha : ∀ x, x ∈ a → (x ∈ l ↔ x ∈ l')).
    { intros x Hx. apply H. simpl. apply elem_of_app. by left. }
    clear -Ha. induction a as [|y a IH]; simpl; [done|].
    f_equal.
    + unfold contains. apply bool_decide_ext, Ha. by left.
    + apply IH. intros x Hx. apply Ha. by right.
  - apply IH. intros x Hx. apply H. simpl. apply elem_of_app. by right.
Qed.

Lemma matches_class_add sel c l :
  c ∉ concat sel → matches sel (class_add c l) = matches sel l.
Proof.
  intros Hc. apply matches_agree. intros x Hx.
  rewrite elem_of_class_add. split; [intros [?| ->]; [done|contradiction]|tauto].
Qed.

Lemma matches_class_remove sel c l :
  c ∉ concat sel → matches sel (class_remove c l) = matches sel l.
Proof.
  intros Hc. apply matches_agree. intros x Hx.
  rewrite elem_of_class_remove. split; [tauto|].
  intros H. split; [done|]. intros ->. contradiction.
Qed.

(** *** [closest] under updates *)

Lemma find_ancestor_alter sel g n l :
  (∀ e, matches sel (el_classList (g e)) = matches sel (el_classList e)) →
  find_ancestor sel (alter g n l) = find_ancestor sel l.
Proof.
  intros Hg. revert n. induction l as [|e l IH]; intros n; [done|].
  destruct n as [|n]; simpl.
  - by rewrite Hg.
  - by rewrite <- (IH n).
Qed.

Lemma find_ancestor_valid sel l n :
  find_ancestor sel l = Some n → is_Some (l !! n).
Proof.
  revert n. induction l as [|e l IH]; intros n; simpl; [done|].
  destruct (matches sel (el_classList e)).
  - intros [= <-]. by eexists.
  - destruct (find_ancestor sel l) as [k|]; simpl; [|done].
    intros [= <-]. by apply IH.
Qed.

Lemma closest_valid sel t r : closest sel t = Some r → valid r t.
Proof.
  unfold closest. destruct (matches sel (classList (img t))).
  - intros [= <-]. exact I.
  - destruct (find_ancestor sel (ancestors t)) as [n|] eqn:E; simpl; [|done].
    intros [= <-]. by eapply find_ancestor_valid.
Qed.

Lemma closest_on_classList sel f r t :
  (∀ l, matches sel (f l) = matches sel l) →
  closest sel (on_classList f r t) = closest sel t.
Proof.
  intros Hf. unfold closest. destruct r as [|n]; simpl.
  - by rewrite Hf.
  - rewrite find_ancestor_alter; [done|]. intros e. apply Hf.
Qed.

Lemma closest_append_child sel n r t :
  closest sel (append_child n r t) = closest sel t.
Proof.
  unfold closest. destruct r as [|k]; simpl; [done|].
  by rewrite find_ancestor_alter.
Qed.

(** *** What class and child updates leave alone *)

Lemma same_data_refl i : same_data i i.
Proof. repeat split. Qed.

Lemma same_data_trans i j k : same_data i j → same_data j k → same_data i k.
Proof.
  unfold same_data. intros (?&?&?&?&?&?&?&?) (?&?&?&?&?&?&?&?).
  repeat split; congruence.
Qed.

Lemma same_data_on_classList f r t :
  same_data (img (on_classList f r t)) (img t).
Proof. destruct r; repeat split. Qed.

Lemma same_data_append_child n r t :
  same_data (img (append_child n r t)) (img t).
Proof. destruct r; repeat split. Qed.

Lemma same_data_level i j : same_data i j → level i = level j.
Proof. intros (?&?&?&H&?). unfold level. by rewrite H. Qed.

Lemma classList_on_classList f r t :
  classList (img (on_classList f r t))
  = match r with
    | Self => f (classList (img t))
    | Anc _ => classList (img t)
    end.
Proof. by destruct r. Qed.

Lemma classList_append_child n r t :
  classList (img (append_child n r t)) = classList (img t).
Proof. by destruct r. Qed.

Lemma classes_of_on_classList f r t :
  valid r t → classes_of r (on_classList f r t) = f (classes_of r t).
Proof.
  destruct r as [|n]; simpl; [done|].
  intros [e He]. by rewrite list_lookup_alter_eq, He.
Qed.

Lemma classes_of_append_child r n r' t :
  classes_of r (append_child n r' t) = classes_of r t.
Proof.
  destruct r as [|k], r' as [|k']; simpl; try done.
  destruct (decide (k = k')) as [->|Hne].
  - rewrite list_lookup_alter_eq. by destruct (ancestors t !! k').
  - by rewrite list_lookup_alter_ne.
Qed.

Lemma valid_on_classList f r r' t : valid r t → valid r (on_classList f r' t).
Proof.
  destruct r as [|k], r' as [|k']; simpl; try done.
  intros [e He]. destruct (decide (k = k')) as [->|Hne].
  - rewrite list_lookup_alter_eq, He. by eexists.
  - rewrite list_lookup_alter_ne by done. by eexists.
Qed.

Lemma has_descendant_append sel n r t :
  valid r t → node_has sel n = true →
  has_descendant sel r (append_child n r t) = true.
Proof.
  intros Hv Hn. destruct r as [|k]; simpl.
  - unfold img_has. simpl. rewrite existsb_app. simpl.
    by rewrite Hn, orb_true_r.
  - destruct Hv as [e He]. rewrite list_lookup_alter_eq, He. simpl.
    unfold element_has. simpl. rewrite existsb_app. simpl.
    by rewrite Hn, !orb_true_r.
Qed.

(** *** The two placeholder makers *)

Section Placeholders.
Variables (container : Ref) (cat : option string) (t : Tree).

Lemma same_data_createErrorPlaceholder :
  same_data (img (createErrorPlaceholder container cat t)) (img t).
Proof.
  unfold createErrorPlaceholder. destruct (has_descendant _ _ _).
  - apply same_data_refl.
  - apply same_data_append_child.
Qed.

Lemma same_data_createPlaceholderContent :
  same_data (img (createPlaceholderContent container cat t)) (img t).
Proof.
  unfold createPlaceholderContent. destruct (has_descendant _ _ _).
  - apply same_data_refl.
  - apply same_data_append_child.
Qed.

Lemma classList_createErrorPlaceholder :
  classList (img (createErrorPlaceholder container cat t))
  = classList (img t).
Proof.
  unfold createErrorPlaceholder. destruct (has_descendant _ _ _); [done|].
  apply classList_append_child.
Qed.

Lemma closest_createErrorPlaceholder sel :
  closest sel (createErrorPlaceholder container cat t) = closest sel t.
Proof.
  unfold createErrorPlaceholder. destruct (has_descendant _ _ _); [done|].
  apply closest_append_child.
Qed.

Lemma classes_of_createErrorPlaceholder r :
  classes_of r (createErrorPlaceholder container cat t) = classes_of r t.
Proof.
  unfold createErrorPlaceholder. destruct (has_descendant _ _ _); [done|].
  apply classes_of_append_child.
Qed.

Lemma has_error_placeholder :
  valid container t →
  has_descendant [["error-placeholder"]] container
    (createErrorPlaceholder container cat t) = true.
Proof.
  intros Hv. unfold createErrorPlaceholder.
  destruct (has_descendant [["error-placeholder"]] container t) eqn:E;
    [exact E|].
  by apply has_descendant_append.
Qed.
End Placeholders.

(** *** The level after each handler *)

Lemma final_same_data t :
  same_data (img (handleFinalFallback t))
            (set_display "none" (set_fallbackLevel "3" (img t))).
Proof.
  unfold handleFinalFallback.
  set (t3 := on_classList _ Self _).
  assert (H3 : same_data (img t3)
                 (set_display "none" (set_fallbackLevel "3" (img t)))).
  { subst t3. apply same_data_on_classList. }
  destruct (closest container_selector t3) as [c|]; [|exact H3].
  eapply same_data_trans; [apply same_data_createErrorPlaceholder|].
  eapply same_data_trans; [apply same_data_on_classList|exact H3].
Qed.

Lemma tertiary_same_data t :
  same_data (img (attemptTertiaryFallback t))
            (set_display "none" (set_fallbackLevel "2" (img t))).
Proof.
  unfold attemptTertiaryFallback.
  set (t3 := on_classList _ Self _).
  assert (H3 : same_data (img t3)
                 (set_display "none" (set_fallbackLevel "2" (img t)))).
  { subst t3. apply same_data_on_classList. }
  destruct (closest container_selector t3) as [c|]; [|exact H3].
  eapply same_data_trans; [apply same_data_createPlaceholderContent|].
  eapply same_data_trans; [apply same_data_on_classList|exact H3].
Qed.

Lemma secondary_same_data t :
  has_distinct_fallback t = true →
  same_data (img (attemptSecondaryFallback t))
            (set_src (JS.to_str (fallbackSrc (img t)))
                     (set_fallbackLevel "1" (img t))).
Proof.
  intros H. unfold attemptSecondaryFallback. rewrite H.
  apply same_data_on_classList.
Qed.

Lemma secondary_without_alternate t :
  has_distinct_fallback t = false →
  attemptSecondaryFallback t = attemptTertiaryFallback t.
Proof. intros H. unfold attemptSecondaryFallback. by rewrite H. Qed.

(** One failure event moves the level as the transition rule says. *)
Lemma handle_level m t :
  level (img (snd (handleEnhancedImageError m t)))
  = transition (level (img t)) (has_distinct_fallback t).
Proof.
  unfold handleEnhancedImageError. simpl.
  destruct (level (img t)) as [|[|[p|p|]|p]]; simpl;
    try (rewrite (same_data_level _ _ (final_same_data t)); reflexivity).
  - destruct (has_distinct_fallback t) eqn:E.
    + rewrite (same_data_level _ _ (secondary_same_data t E)). reflexivity.
    + rewrite (secondary_without_alternate t E).
      rewrite (same_data_level _ _ (tertiary_same_data t)). reflexivity.
  - rewrite (same_data_level _ _ (tertiary_same_data t)). reflexivity.
Qed.

Lemma fail_n_S n m t :
  fail_n (S n) m t
  = fail_n n (fst (handleEnhancedImageError m t))
             (snd (handleEnhancedImageError m t)).
Proof. cbn [fail_n]. by destruct (handleEnhancedImageError m t). Qed.

Lemma fail_n_last n m t :
  fail_n (S n) m t
  = handleEnhancedImageError (fst (fail_n n m t)) (snd (fail_n n m t)).
Proof.
  revert m t. induction n as [|n IH]; intros m t.
  - cbn [fail_n fst snd]. by destruct (handleEnhancedImageError m t).
  - rewrite fail_n_S, IH. by rewrite <- fail_n_S.
Qed.

Lemma level_after_S n m t :
  level_after (S n) m t
  = transition (level_after n m t)
               (has_distinct_fallback (snd (fail_n n m t))).
Proof. unfold level_after. rewrite fail_n_last. apply handle_level. Qed.

Lemma transition_in_range l d :
  in_range l → in_range (transition l d) ∧ level_le l (transition l d).
Proof.
  intros (z & -> & Hz).
  assert (Hc : z = 0 ∨ z = 1 ∨ z = 2 ∨ z = 3) by lia.
  destruct Hc as [Hc|[Hc|[Hc|Hc]]]; subst z; simpl; try destruct d; simpl;
    (split; [eexists; split; [reflexivity|lia] | lia]).
Qed.

Lemma level_after_in_range n m t :
  in_range (level (img t)) → in_range (level_after n m t).
Proof.
  intros H. induction n as [|n IH]; [exact H|].
  rewrite level_after_S. by apply transition_in_range.
Qed.

Lemma level_le_trans a b c : level_le a b → level_le b c → level_le a c.
Proof. destruct a, b, c; simpl; try tauto. lia. Qed.

Lemma level_after_monotone n k m t :
  in_range (level_after n m t) →
  in_range (level_after (n + k) m t)
  ∧ level_le (level_after n m t) (level_after (n + k) m t).
Proof.
  intros H. induction k as [|k [IHr IHle]].
  - rewrite Nat.add_0_r. split; [exact H|].
    destruct H as (z & -> & _). simpl. lia.
  - rewrite Nat.add_succ_r, level_after_S.
    split; [by apply transition_in_range|].
    eapply level_le_trans; [exact IHle|]. by apply transition_in_range.
Qed.

Lemma level_after_failed n k m t :
  level_after n m t = JS.Num 3 → level_after (n + k) m t = JS.Num 3.
Proof.
  intros H. induction k as [|k IH].
  - by rewrite Nat.add_0_r.
  - by rewrite Nat.add_succ_r, level_after_S, IH.
Qed.

Lemma transition_range l d : in_range (transition l d).
Proof.
  destruct l as [|[|[p|p|]|p]]; simpl; try destruct d;
    eexists; (split; [reflexivity|lia]).
Qed.

(** The example element is what the builder makes of the unit tests' hero
    record, placed in an [.image-container]. *)
Lemma hero_tree_is_built :
  Builder.createPictureElement BuilderSpec.with_webp BuilderSpec.test_manager
    "hero" "test-image" "" BuilderSpec.no_options
  ≫= (λ p, Builder.mount p
              [ {| el_classList := ["image-container"]; el_kids := [] |} ])
  = Some hero_tree.
Proof. vm_compute. reflexivity. Qed.

(** C1. Over any run of failure events the level of an element never
    decreases, provided the element starts at a level of the data model
    (0 to 3) or has already seen one failure event; from Primary with a
    distinct alternate source configured, the first three failure events
    lead to levels 1, 2 and 3, where the level then stays; and one failure
    event takes any element from level 1 to 2 and from level 2 to 3. *)
Theorem failure_events_advance_level m t :
  (∀ n k, in_range (level (img t)) ∨ (1 ≤ n)%nat →
     level_le (level_after n m t) (level_after (n + k) m t))
  ∧ (level (img t) = JS.Num 0 → has_distinct_fallback t = true →
       level_after 1 m t = JS.Num 1
       ∧ level_after 2 m t = JS.Num 2
       ∧ level_after 3 m t = JS.Num 3
       ∧ ∀ n, (3 ≤ n)%nat → level_after n m t = JS.Num 3)
  ∧ (level (img t) = JS.Num 1 → level_after 1 m t = JS.Num 2)
  ∧ (level (img t) = JS.Num 2 → level_after 1 m t = JS.Num 3).
Proof.
  split; [|split; [|split]].
  - intros n k H. apply level_after_monotone.
    destruct H as [H|H]; [by apply level_after_in_range|].
    destruct n as [|n]; [lia|].
    rewrite level_after_S. apply transition_range.
  - intros H0 Hd.
    assert (H1 : level_after 1 m t = JS.Num 1).
    { rewrite level_after_S. unfold level_after. simpl. by rewrite H0, Hd. }
    assert (H2 : level_after 2 m t = JS.Num 2).
    { by rewrite level_after_S, H1. }
    assert (H3 : level_after 3 m t = JS.Num 3).
    { by rewrite level_after_S, H2. }
    repeat split; try assumption.
    intros n Hn. replace n with (3 + (n - 3))%nat by lia.
    by apply level_after_failed.
  - intros H. rewrite level_after_S. unfold level_after. simpl. by rewrite H.
  - intros H. rewrite level_after_S. unfold level_after. simpl. by rewrite H.
Qed.

Lemma failure_events_advance_level_witness :
  in_range (level (img hero_tree))
  ∧ has_distinct_fallback hero_tree = true
  ∧ level_le (level_after 1 new_manager hero_tree)
             (level_after (1 + 2) new_manager hero_tree)
  ∧ level_after 1 new_manager hero_tree = JS.Num 1
  ∧ level_after 2 new_manager hero_tree = JS.Num 2
  ∧ level_after 3 new_manager hero_tree = JS.Num 3.
Proof.
  assert (Hr : in_range (level (img hero_tree))).
  { exists 0. split; [reflexivity|lia]. }
  split; [exact Hr|]. split; [reflexivity|].
  split.
  - apply (proj1 (failure_events_advance_level new_manager hero_tree) 1%nat 2%nat).
    left. exact Hr.
  - destruct (proj1 (proj2 (failure_events_advance_level new_manager hero_tree))
                eq_refl eq_refl) as (H1 & H2 & H3 & _).
    split; [exact H1|]. split; [exact H2|exact H3].
Defined.

(** *** Updates that change nothing *)

Lemma on_img_id f t : f (img t) = img t → on_img f t = t.
Proof. intros H. unfold on_img. rewrite H. by destruct t. Qed.

Lemma on_classList_id f r t :
  valid r t → f (classes_of r t) = classes_of r t → on_classList f r t = t.
Proof.
  destruct r as [|n]; simpl.
  - intros _ H. apply on_img_id. rewrite H. by destruct (img t).
  - intros [e He] H. rewrite He in H. simpl in H.
    destruct t as [i anc]. simpl in *. f_equal.
    apply list_eq. intros j. destruct (decide (j = n)) as [->|Hne].
    + rewrite list_lookup_alter_eq, He. simpl. f_equal.
      unfold on_element_classList. rewrite H. by destruct e.
    + by rewrite list_lookup_alter_ne.
Qed.


Lemma not_in_selector c :
  bool_decide (c ∈ concat container_selector) = false →
  c ∉ concat container_selector.
Proof. by intros H%bool_decide_eq_false. Qed.

(** What [handleFinalFallback] leaves is the Failed state. *)
Lemma final_fallback_in_Failed t : in_Failed (handleFinalFallback t).
Proof.
  pose proof (final_same_data t) as (_&_&_&Hl&_&_&_&Hd).
  split; [exact Hl|]. split; [exact Hd|]. clear Hl Hd.
  unfold handleFinalFallback.
  set (t3 := on_classList _ Self _).
  assert (H3 : "fallback-final" ∈ classList (img t3)).
  { subst t3. rewrite classList_on_classList. apply elem_of_class_add. by right. }
  destruct (closest container_selector t3) as [c|] eqn:E.
  - assert (Hv : valid c t3) by eauto using closest_valid.
    split.
    + rewrite classList_createErrorPlaceholder, classList_on_classList.
      destruct c; [|done]. apply elem_of_class_add. by left.
    + rewrite closest_createErrorPlaceholder, closest_on_classList, E
        by (intros l; apply matches_class_add, not_in_selector; reflexivity).
      split.
      * rewrite classes_of_createErrorPlaceholder, classes_of_on_classList by done.
        apply elem_of_class_add. by right.
      * apply has_error_placeholder. by apply valid_on_classList.
  - split; [exact H3|]. by rewrite E.
Qed.

(** Whatever a failure event leaves at level 3 is in the Failed state. *)
Lemma failure_event_enters_Failed m t :
  level (img (snd (handleEnhancedImageError m t))) = JS.Num 3 →
  in_Failed (snd (handleEnhancedImageError m t)).
Proof.
  unfold handleEnhancedImageError. cbn [snd].
  destruct (level (img t)) as [|[|[p|p|]|p]]; cbv beta iota;
    lazymatch goal with
    | |- level (img (handleFinalFallback _)) = _ → _ =>
        intros _; apply final_fallback_in_Failed
    | |- _ => idtac
    end.
  - destruct (has_distinct_fallback t) eqn:E.
    + rewrite (same_data_level _ _ (secondary_same_data t E)). discriminate.
    + rewrite (secondary_without_alternate t E).
      rewrite (same_data_level _ _ (tertiary_same_data t)). discriminate.
  - rewrite (same_data_level _ _ (tertiary_same_data t)). discriminate.
Qed.





(** *** The success handler *)

Lemma load_steps t :
  handleImageLoad t
  = let t2 := on_classList (class_remove "loading") Self
                (on_classList (class_add "loaded") Self t) in
    match closest container_selector t with
    | Some container =>
        on_classList
          (λ l, class_remove "image-failed" (class_remove "image-placeholder" l))
          container t2
    | None => t2
    end.
Proof.
  unfold handleImageLoad. cbv zeta.
  rewrite !closest_on_classList; [done| |].
  - intros l. apply matches_class_add, not_in_selector. reflexivity.
  - intros l. apply matches_class_remove, not_in_selector. reflexivity.
Qed.

Lemma load_same_data t : same_data (img (handleImageLoad t)) (img t).
Proof.
  rewrite load_steps. cbv zeta.
  assert (H2 : same_data
                 (img (on_classList (class_remove "loading") Self
                         (on_classList (class_add "loaded") Self t)))
                 (img t)).
  { eapply same_data_trans; apply same_data_on_classList. }
  destruct (closest container_selector t); [|exact H2].
  eapply same_data_trans; [apply same_data_on_classList|exact H2].
Qed.

Lemma load_classList t x :
  x ∈ classList (img (handleImageLoad t))
  ↔ (x ∈ classList (img t) ∨ x = "loaded") ∧ x ≠ "loading"
    ∧ (closest container_selector t = Some Self →
         x ≠ "image-placeholder" ∧ x ≠ "image-failed").
Proof.
  rewrite load_steps. cbv zeta.
  destruct (closest container_selector t) as [[|n]|];
    rewrite ?classList_on_classList, ?elem_of_class_remove, elem_of_class_add;
    intuition congruence.
Qed.

Lemma same_data_distinct t t' :
  same_data (img t) (img t') →
  has_distinct_fallback t = has_distinct_fallback t'.
Proof.
  intros (Hs&_&_&_&Hf&_). unfold has_distinct_fallback. by rewrite Hs, Hf.
Qed.

(** C4 as the specification words it fails: the success handler leaves the
    placeholder tag on an element that loads at Placeholder. *)
Lemma success_keeps_element_tags : ¬ success_as_specified hero_placeholder.
Proof.
  intros (_ & _ & H & _). apply (H "fallback-tertiary").
  - repeat constructor.
  - vm_compute. repeat constructor.
Qed.

(** C4, amended. At every level a success event puts the loaded tag on the
    element, removes its loading tag, removes the placeholder and failed
    marks of its container, and leaves the level, the source and the
    inline display of the element as they were; the element keeps the
    fallback tags it had. *)
Theorem success_marks_loaded t :
  let t' := handleImageLoad t in
  "loaded" ∈ classList (img t')
  ∧ ("loading" ∉ classList (img t'))
  ∧ match closest container_selector t with
    | Some container =>
        ("image-placeholder" ∉ classes_of container t')
        ∧ ("image-failed" ∉ classes_of container t')
    | None => True
    end
  ∧ same_data (img t') (img t)
  ∧ level (img t') = level (img t)
  ∧ ∀ tag,
      tag ∈ ["fallback-secondary"; "fallback-tertiary"; "fallback-final"] →
      (tag ∈ classList (img t') ↔ tag ∈ classList (img t)).
Proof.
  intros t'. subst t'.
  split; [rewrite load_classList; repeat split; (by right) || discriminate|].
  split; [rewrite load_classList; intros (_ & H & _); by apply H|].
  split.
  { rewrite load_steps. cbv zeta.
    destruct (closest container_selector t) as [c|] eqn:E; [|done].
    assert (Hv : valid c t) by eauto using closest_valid.
    rewrite classes_of_on_classList
      by (do 2 apply valid_on_classList; exact Hv).
    rewrite !elem_of_class_remove. split; intros H; tauto. }
  split; [apply load_same_data|].
  split; [apply same_data_level, load_same_data|].
  intros tag Htag. rewrite load_classList.
  repeat (apply elem_of_cons in Htag as [-> | Htag]);
    [ | | | inversion Htag];
    (split; [intros ([H|H] & _); [exact H|discriminate H]
            |intros H; repeat split; (by left) || discriminate]).
Qed.

Lemma success_marks_loaded_witness :
  "fallback-tertiary"
    ∈ ["fallback-secondary"; "fallback-tertiary"; "fallback-final"]
  ∧ "fallback-tertiary" ∈ classList (img hero_placeholder)
  ∧ "fallback-tertiary" ∈ classList (img (handleImageLoad hero_placeholder)).
Proof.
  assert (Hin : "fallback-tertiary"
                  ∈ ["fallback-secondary"; "fallback-tertiary"; "fallback-final"])
    by repeat constructor.
  assert (Hbefore : "fallback-tertiary" ∈ classList (img hero_placeholder))
    by (vm_compute; repeat constructor).
  split; [exact Hin|]. split; [exact Hbefore|].
  destruct (success_marks_loaded hero_placeholder) as (_ & _ & _ & _ & _ & H).
  apply (proj2 (H "fallback-tertiary" Hin) Hbefore).
Defined.

(** C5 as the specification words it fails: a failure event on an element
    that is marked loaded at Primary still moves it to Secondary. *)
Lemma loaded_does_not_freeze_level :
  ¬ terminal_flags_freeze_level new_manager (handleImageLoad hero_tree).
Proof.
  intros H.
  assert (Hloaded : "loaded" ∈ classList (img (handleImageLoad hero_tree)))
    by (vm_compute; repeat constructor).
  specialize (H (or_introl Hloaded)). vm_compute in H. discriminate H.
Qed.

(** C5, amended. Once an element is at level 3 a failure event leaves its
    level at 3. A success event does not change the level either, but it
    does not freeze it: a failure event after a success event moves the
    level by the transition rule, as it would have without the success. *)
Theorem failed_level_is_final m t :
  (level (img t) = JS.Num 3 →
     level (img (snd (handleEnhancedImageError m t))) = JS.Num 3)
  ∧ level (img (handleImageLoad t)) = level (img t)
  ∧ level (img (snd (handleEnhancedImageError m (handleImageLoad t))))
    = transition (level (img t)) (has_distinct_fallback t).
Proof.
  split; [intros H; by rewrite handle_level, H|].
  split; [apply same_data_level, load_same_data|].
  rewrite handle_level.
  by rewrite (same_data_level _ _ (load_same_data t)),
             (same_data_distinct _ _ (load_same_data t)).
Qed.

Lemma failed_level_is_final_witness :
  level (img hero_failed) = JS.Num 3
  ∧ level (img (snd (handleEnhancedImageError new_manager hero_failed)))
    = JS.Num 3.
Proof.
  split; [reflexivity|].
  apply (proj1 (failed_level_is_final new_manager hero_failed)).
  reflexivity.
Defined.

End FallbackFacts.

(** ** The global handlers *)

Module HandlersFacts.
Import Dom Fallback FallbackSpec Handlers.

Lemma about_never_returns stack w :
  level (img (tree w)) = JS.Num 0 →
  has_distinct_fallback (tree w) = false →
  handleAboutImageError stack w = StackOverflow.
Proof.
  intros Hl Hd. induction stack as [|stack IH]; [done|].
  cbn [handleAboutImageError]. by rewrite Hl, Hd, IH.
Qed.

Lemma review_never_returns stack w :
  level (img (tree w)) = JS.Num 0 →
  has_distinct_fallback (tree w) = false →
  handleReviewImageError stack w = StackOverflow.
Proof.
  intros Hl Hd. induction stack as [|stack IH]; [done|].
  cbn [handleReviewImageError]. by rewrite Hl, Hd, IH.
Qed.

(** C2. For an element at Primary without a distinct alternate source, the
    manager's handler returns and leaves the element at level 2; the about
    and the review handler call themselves on the unchanged element and
    never return, whatever the depth of stack they are given. *)
Theorem skip_to_placeholder_by_entry_point m t :
  level (img t) = JS.Num 0 →
  has_distinct_fallback t = false →
  (∃ w, handleManagerImageError m t = Returned w
        ∧ level (img (tree w)) = JS.Num 2)
  ∧ (∀ stack, handleAboutImageError stack (mkWorld (Some m) t) = StackOverflow)
  ∧ (∀ stack, handleReviewImageError stack (mkWorld (Some m) t) = StackOverflow).
Proof.
  intros Hl Hd. split; [|split].
  - unfold handleManagerImageError.
    pose proof (FallbackFacts.handle_level m t) as H.
    destruct (handleEnhancedImageError m t) as [m1 t1]. simpl in H.
    eexists. split; [reflexivity|]. simpl. by rewrite H, Hl, Hd.
  - intros stack. by apply about_never_returns.
  - intros stack. by apply review_never_returns.
Qed.

Lemma skip_to_placeholder_by_entry_point_witness :
  level (img team_photo) = JS.Num 0
  ∧ has_distinct_fallback team_photo = false
  ∧ handleAboutImageError 64 team_world = StackOverflow
  ∧ handleReviewImageError 64 team_world = StackOverflow.
Proof.
  split; [reflexivity|]. split; [reflexivity|].
  destruct (skip_to_placeholder_by_entry_point new_manager team_photo
              eq_refl eq_refl) as (_ & Ha & Hr).
  split; [apply (Ha 64%nat)|apply (Hr 64%nat)].
Defined.

End HandlersFacts.

(** ** More on the Stats Recorder *)

Module StatsMore.
Import Stats StatsHistory.

Lemma track_is_some category imageName lvl fs :
  trackFallbackUsage category imageName lvl fs
  = Some (getFallbackStats (trackFallbackUsage category imageName lvl fs)).
Proof. reflexivity. Qed.

Lemma slash_key_inj c1 n1 c2 n2 :
  slash_free c1 = true → slash_free c2 = true →
  c1 +:+ String "/" n1 = c2 +:+ String "/" n2 →
  c1 = c2 ∧ n1 = n2.
Proof.
  revert c2. induction c1 as [|a c1 IH]; intros [|b c2] H1 H2 E; simpl in *.
  - by injection E.
  - injection E as <- _. by rewrite Ascii.eqb_refl in H2.
  - injection E as -> _. by rewrite Ascii.eqb_refl in H1.
  - injection E as <- E.
    apply andb_true_iff in H1 as [_ H1]. apply andb_true_iff in H2 as [_ H2].
    destruct (IH c2 H1 H2 E) as [-> ->]. done.
Qed.

(** X1. Two images whose categories contain no "/" share a statistics key
    only when they have the same category and the same name; with a "/" in
    a category, different images can share one key. *)
Theorem stat_key_separates_images :
  (∀ c1 n1 c2 n2,
     slash_free c1 = true → slash_free c2 = true →
     stat_key (Some c1) (Some n1) = stat_key (Some c2) (Some n2) →
     c1 = c2 ∧ n1 = n2)
  ∧ stat_key (Some "a/b") (Some "c") = stat_key (Some "a") (Some "b/c").
Proof.
  split; [|reflexivity].
  intros c1 n1 c2 n2 H1 H2 E. by apply (slash_key_inj c1 n1 c2 n2).
Qed.

Lemma stat_key_separates_images_witness :
  slash_free "hero" = true ∧ slash_free "services" = true
  ∧ stat_key (Some "hero") (Some "x") ≠ stat_key (Some "services") (Some "x").
Proof.
  split; [reflexivity|]. split; [reflexivity|].
  intros E.
  destruct (proj1 stat_key_separates_images "hero" "x" "services" "x"
              eq_refl eq_refl E) as [H _].
  discriminate H.
Defined.

(** X2. Recording for two different keys gives, in either order,
    statistics with the same entry under every key. *)
Theorem records_of_different_keys_commute c1 n1 l1 c2 n2 l2 fs :
  stat_key c1 n1 ≠ stat_key c2 n2 →
  trackFallbackUsage c1 n1 l1 (trackFallbackUsage c2 n2 l2 fs)
  = trackFallbackUsage c2 n2 l2 (trackFallbackUsage c1 n1 l1 fs).
Proof.
  intros Hne.
  rewrite (track_is_some c1), (track_is_some c2 n2 l2 (trackFallbackUsage _ _ _ _)).
  f_equal. apply map_eq. intros key.
  destruct (decide (key = stat_key c1 n1)) as [->|H1].
  - rewrite StatsFacts.track_lookup, (StatsFacts.track_lookup_ne c2) by done.
    rewrite StatsFacts.track_lookup. unfold entry.
    by rewrite (StatsFacts.track_lookup_ne c2) by done.
  - rewrite (StatsFacts.track_lookup_ne c1) by done.
    destruct (decide (key = stat_key c2 n2)) as [->|H2].
    + rewrite !StatsFacts.track_lookup. unfold entry.
      by rewrite (StatsFacts.track_lookup_ne c1) by done.
    + by rewrite !StatsFacts.track_lookup_ne by done.
Qed.

Lemma records_of_different_keys_commute_witness :
  stat_key (Some "hero") (Some "a") ≠ stat_key (Some "about") (Some "b")
  ∧ trackFallbackUsage (Some "hero") (Some "a") (JS.Num 0)
      (trackFallbackUsage (Some "about") (Some "b") (JS.Num 1) None)
    = trackFallbackUsage (Some "about") (Some "b") (JS.Num 1)
        (trackFallbackUsage (Some "hero") (Some "a") (JS.Num 0) None).
Proof.
  assert (H : stat_key (Some "hero") (Some "a")
              ≠ stat_key (Some "about") (Some "b")) by discriminate.
  split; [exact H|].
  apply (records_of_different_keys_commute _ _ _ _ _ _ None H).
Defined.

Lemma run_ops_snoc os o fs : run_ops (os ++ [o]) fs = run_op o (run_ops os fs).
Proof. unfold run_ops. by rewrite foldl_app. Qed.

Lemma recorded_snoc key os o :
  recorded_since_reset key (os ++ [o])
  = match o with
    | Record_ c n l =>
        if decide (stat_key c n = key)
        then recorded_since_reset key os ++ [l]
        else recorded_since_reset key os
    | Reset => []
    end.
Proof. unfold recorded_since_reset. by rewrite foldl_app. Qed.

(** X3. After any sequence of record and reset operations on a new
    recorder, the levels held for the key of an image are exactly the
    levels recorded for that key since the last reset, oldest first, and
    the count is their number; an image never recorded since the last
    reset has no entry. *)
Theorem levels_are_the_history os category imageName :
  let key := stat_key category imageName in
  levels (entry (run_ops os None) key) = recorded_since_reset key os
  ∧ count (entry (run_ops os None) key)
    = Z.of_nat (List.length (recorded_since_reset key os))
  ∧ (recorded_since_reset key os = [] →
       getFallbackStats (run_ops os None) !! key = None).
Proof.
  cbv zeta. generalize (stat_key category imageName) as key. intros key.
  induction os as [|o os IH] using rev_ind.
  - split; [done|]. split; [done|]. intros _. reflexivity.
  - destruct IH as (IHl & IHc & IHn).
    rewrite run_ops_snoc, recorded_snoc. destruct o as [c n l|]; cbn [run_op].
    + destruct (decide (stat_key c n = key)) as [<-|Hne].
      * unfold entry at 1 2. rewrite StatsFacts.track_lookup. simpl.
        rewrite IHl, IHc, length_app. simpl.
        split; [done|]. split; [lia|]. by intros ?%app_nil_r_inv.
      * unfold entry in *. by rewrite StatsFacts.track_lookup_ne by done.
    + split; [done|]. split; [done|]. intros _. reflexivity.
Qed.

Lemma levels_are_the_history_witness :
  recorded_since_reset (stat_key (Some "hero") (Some "y"))
    [Record_ (Some "hero") (Some "y") (JS.Num 0); Reset;
     Record_ (Some "hero") (Some "x") (JS.Num 1)] = []
  ∧ getFallbackStats
      (run_ops [Record_ (Some "hero") (Some "y") (JS.Num 0); Reset;
                Record_ (Some "hero") (Some "x") (JS.Num 1)] None)
    !! "hero/y" = None.
Proof.
  split; [reflexivity|].
  apply (proj2 (proj2 (levels_are_the_history
                  [Record_ (Some "hero") (Some "y") (JS.Num 0); Reset;
                   Record_ (Some "hero") (Some "x") (JS.Num 1)]
                  (Some "hero") (Some "y")))).
  reflexivity.
Defined.

End StatsMore.

(** ** More on the Fallback State Machine *)

Module FallbackMore.
Import Dom Fallback FallbackSpec FallbackFacts.

Lemma alter_beyond {A} (f : A → A) (l : list A) n :
  l !! n = None → alter f n l = l.
Proof.
  intros H. apply list_eq. intros j. destruct (decide (j = n)) as [->|Hne].
  - by rewrite list_lookup_alter_eq, H.
  - by rewrite list_lookup_alter_ne.
Qed.

Lemma class_remove_absent c l : c ∉ l → class_remove c l = l.
Proof.
  unfold class_remove. induction l as [|x l IH]; intros H; [done|].
  apply not_elem_of_cons in H as [Hx Hl].
  rewrite filter_cons_True by congruence. by rewrite IH.
Qed.

(** *** What a failure event leaves alone *)

Lemma ancestors_createPlaceholderContent c cat t :
  length (ancestors (createPlaceholderContent c cat t)) = length (ancestors t).
Proof.
  unfold createPlaceholderContent. destruct (has_descendant _ _ _); [done|].
  destruct c; simpl; [done|]. apply length_alter.
Qed.

Lemma ancestors_createErrorPlaceholder c cat t :
  length (ancestors (createErrorPlaceholder c cat t)) = length (ancestors t).
Proof.
  unfold createErrorPlaceholder. destruct (has_descendant _ _ _); [done|].
  destruct c; simpl; [done|]. apply length_alter.
Qed.

Lemma ancestors_on_classList f r t :
  length (ancestors (on_classList f r t)) = length (ancestors t).
Proof. destruct r; simpl; [done|]. apply length_alter. Qed.

Lemma ancestors_handle m t :
  length (ancestors (snd (handleEnhancedImageError m t)))
  = length (ancestors t).
Proof.
  unfold handleEnhancedImageError. cbn [snd].
  assert (Hf : length (ancestors (handleFinalFallback t)) = length (ancestors t)).
  { unfold handleFinalFallback. destruct (closest _ _); [|done].
    by rewrite ancestors_createErrorPlaceholder, ancestors_on_classList. }
  assert (Ht : length (ancestors (attemptTertiaryFallback t))
               = length (ancestors t)).
  { unfold attemptTertiaryFallback. destruct (closest _ _); [|done].
    by rewrite ancestors_createPlaceholderContent, ancestors_on_classList. }
  destruct (level (img t)) as [|[|[p|p|]|p]]; try exact Hf; [|exact Ht].
  unfold attemptSecondaryFallback. by destruct (has_distinct_fallback t).
Qed.

(** The image after a failure event, up to its classes and children: one
    of the three steps has been taken. *)
Lemma handle_same_data m t :
  (level (img t) = JS.Num 0 ∧ has_distinct_fallback t = true
   ∧ same_data (img (snd (handleEnhancedImageError m t)))
       (set_src (JS.to_str (fallbackSrc (img t)))
                (set_fallbackLevel "1" (img t))))
  ∨ (¬ (level (img t) = JS.Num 0 ∧ has_distinct_fallback t = true)
     ∧ (same_data (img (snd (handleEnhancedImageError m t)))
          (set_display "none" (set_fallbackLevel "2" (img t)))
        ∨ same_data (img (snd (handleEnhancedImageError m t)))
            (set_display "none" (set_fallbackLevel "3" (img t))))).
Proof.
  unfold handleEnhancedImageError. cbn [snd].
  destruct (level (img t)) as [|[|[p|p|]|p]] eqn:El; cbv beta iota.
  - right. split; [intros [? _]; discriminate|]. right. apply final_same_data.
  - destruct (has_distinct_fallback t) eqn:E.
    + left. split; [done|]. split; [done|]. by apply secondary_same_data.
    + right. split; [intros [_ ?]; discriminate|]. left.
      rewrite (secondary_without_alternate t E). apply tertiary_same_data.
  - right. split; [intros [? _]; discriminate|]. right. apply final_same_data.
  - right. split; [intros [? _]; discriminate|]. right. apply final_same_data.
  - right. split; [intros [? _]; discriminate|]. left. apply tertiary_same_data.
  - right. split; [intros [? _]; discriminate|]. right. apply final_same_data.
Qed.

(** What every failure event keeps. *)
Lemma handle_keeps m t :
  let t' := snd (handleEnhancedImageError m t) in
  alt (img t') = alt (img t)
  ∧ loading (img t') = loading (img t)
  ∧ fallbackSrc (img t') = fallbackSrc (img t)
  ∧ category (img t') = category (img t)
  ∧ imageName (img t') = imageName (img t).
Proof.
  intros t'. subst t'.
  destruct (handle_same_data m t)
    as [(_ & _ & H)|(_ & [H|H])];
    destruct H as (_ & Ha & Hl & _ & Hf & Hc & Hn & _);
    (split; [exact Ha|]); (split; [exact Hl|]); (split; [exact Hf|]);
    (split; [exact Hc|exact Hn]).
Qed.

(** X4. A failure event never changes the alt text, the loading mode, the
    configured alternate source, the category or the name of the image,
    and never removes or adds an ancestor. Only the move from Primary to
    Secondary writes the source, and it leaves the image as visible as it
    was; in every other case the source stays and the image is hidden. *)
Theorem failure_event_frame m t :
  let t' := snd (handleEnhancedImageError m t) in
  alt (img t') = alt (img t)
  ∧ loading (img t') = loading (img t)
  ∧ fallbackSrc (img t') = fallbackSrc (img t)
  ∧ category (img t') = category (img t)
  ∧ imageName (img t') = imageName (img t)
  ∧ length (ancestors t') = length (ancestors t)
  ∧ (level (img t) = JS.Num 0 → has_distinct_fallback t = true →
       display (img t') = display (img t))
  ∧ (¬ (level (img t) = JS.Num 0 ∧ has_distinct_fallback t = true) →
       src (img t') = src (img t) ∧ display (img t') = "none").
Proof.
  intros t'. subst t'.
  destruct (handle_keeps m t) as (Ha & Hl & Hf & Hc & Hn).
  split; [exact Ha|]. split; [exact Hl|]. split; [exact Hf|].
  split; [exact Hc|]. split; [exact Hn|].
  split; [apply ancestors_handle|].
  split.
  - intros H0 Hd.
    destruct (handle_same_data m t) as [(_ & _ & H)|(Hn' & _)].
    + by destruct H as (_ & _ & _ & _ & _ & _ & _ & Hdisp).
    + destruct Hn'. by split.
  - intros Hnot.
    destruct (handle_same_data m t) as [(H0 & Hd & _)|(_ & [H|H])].
    + destruct Hnot. by split.
    + destruct H as (Hs & _ & _ & _ & _ & _ & _ & Hdisp).
      split; [exact Hs|exact Hdisp].
    + destruct H as (Hs & _ & _ & _ & _ & _ & _ & Hdisp).
      split; [exact Hs|exact Hdisp].
Qed.

Lemma failure_event_frame_witness :
  level (img hero_tree) = JS.Num 0
  ∧ has_distinct_fallback hero_tree = true
  ∧ display (img (snd (handleEnhancedImageError new_manager hero_tree))) = ""
  ∧ ¬ (level (img hero_placeholder) = JS.Num 0
       ∧ has_distinct_fallback hero_placeholder = true)
  ∧ display (img (snd (handleEnhancedImageError new_manager hero_placeholder)))
    = "none".
Proof.
  split; [reflexivity|]. split; [reflexivity|].
  destruct (failure_event_frame new_manager hero_tree)
    as (_&_&_&_&_&_&H1&_).
  split; [exact (H1 eq_refl eq_refl)|].
  assert (Hn : ¬ (level (img hero_placeholder) = JS.Num 0
                  ∧ has_distinct_fallback hero_placeholder = true)).
  { intros [H _]. vm_compute in H. discriminate H. }
  split; [exact Hn|].
  destruct (failure_event_frame new_manager hero_placeholder)
    as (_&_&_&_&_&_&_&H2).
  exact (proj2 (H2 Hn)).
Defined.

(** *** Statistics of failure events *)

Lemma handle_stats m t :
  fallbackStats (fst (handleEnhancedImageError m t))
  = Stats.trackFallbackUsage (category (img t)) (imageName (img t))
      (level (img t)) (fallbackStats m)
  ∧ imageMetadata (fst (handleEnhancedImageError m t)) = imageMetadata m.
Proof.
  destruct (handle_keeps m t) as (_ & _ & _ & Hc & Hn).
  unfold handleEnhancedImageError in *. cbn [fst snd] in *.
  cbn [fallbackStats imageMetadata set_fallbackStats].
  split; [|reflexivity]. by rewrite Hc, Hn.
Qed.

Lemma fail_n_identity n m t :
  category (img (snd (fail_n n m t))) = category (img t)
  ∧ imageName (img (snd (fail_n n m t))) = imageName (img t).
Proof.
  induction n as [|n [IHc IHn]]; [done|].
  rewrite fail_n_last.
  destruct (handle_keeps (fst (fail_n n m t)) (snd (fail_n n m t)))
    as (_ & _ & _ & Hc & Hn).
  split; [exact (eq_trans Hc IHc)|exact (eq_trans Hn IHn)].
Qed.

(** X5. Each failure event records one occurrence under the key of the
    element's category and name, with the level the element had before the
    event; after [n] events on one element the count of its key has grown by
    [n] and its levels by the [n] levels the element went through. *)
Theorem failure_events_are_recorded m t n :
  let key := Stats.stat_key (category (img t)) (imageName (img t)) in
  let before := Stats.entry (fallbackStats m) key in
  let after := Stats.entry (fallbackStats (fst (fail_n n m t))) key in
  fallbackStats (fst (handleEnhancedImageError m t))
  = Stats.trackFallbackUsage (category (img t)) (imageName (img t))
      (level (img t)) (fallbackStats m)
  ∧ Stats.levels after
    = Stats.levels before ++ ((λ k, level_after k m t) <$> seq 0 n)
  ∧ Stats.count after = Stats.count before + Z.of_nat n.
Proof.
  intros key before after. split; [apply handle_stats|].
  subst key before after. induction n as [|n [IHl IHc]].
  - cbn [fail_n fst seq fmap list_fmap]. rewrite app_nil_r. split; [done|lia].
  - rewrite fail_n_last.
    destruct (handle_stats (fst (fail_n n m t)) (snd (fail_n n m t))) as [-> _].
    destruct (fail_n_identity n m t) as [-> ->].
    unfold Stats.entry at 1 3. rewrite StatsFacts.track_lookup.
    rewrite seq_S, fmap_app, app_assoc, <- IHl.
    cbn [default from_option id Stats.push_level Stats.levels Stats.count
         fmap list_fmap Nat.add].
    rewrite IHc. unfold level_after. split; [reflexivity|lia].
Qed.

(** *** Reaching Failed *)

Lemma transition_thrice l d1 d2 d3 :
  transition (transition (transition l d1) d2) d3 = JS.Num 3.
Proof. destruct l as [|[|[p|p|]|p]], d1, d2; reflexivity. Qed.

(** X6. Whatever level its markup gives an element, three failure events
    bring it to level 3, in the Failed state, and it stays there under any
    further failure events. *)
Theorem three_failures_reach_Failed m t n :
  (3 ≤ n)%nat →
  level_after n m t = JS.Num 3 ∧ in_Failed (snd (fail_n n m t)).
Proof.
  intros Hn.
  assert (H3 : level_after 3 m t = JS.Num 3).
  { rewrite !level_after_S. apply transition_thrice. }
  assert (Hl : level_after n m t = JS.Num 3).
  { replace n with (3 + (n - 3))%nat by lia. by apply level_after_failed. }
  split; [exact Hl|].
  destruct n as [|k]; [lia|]. unfold level_after in Hl.
  rewrite fail_n_last in *. by apply failure_event_enters_Failed.
Qed.

Lemma three_failures_reach_Failed_witness :
  (3 ≤ 4)%nat ∧ level_after 4 new_manager team_photo = JS.Num 3.
Proof.
  assert (H : (3 ≤ 4)%nat) by lia.
  split; [exact H|].
  exact (proj1 (three_failures_reach_Failed new_manager team_photo 4 H)).
Defined.

End FallbackMore.

Module FallbackMore2.
Import Dom Fallback FallbackSpec FallbackFacts FallbackMore.

(** *** The Placeholder state *)

Lemma closest_on_img sel f t :
  classList (f (img t)) = classList (img t) →
  closest sel (on_img f t) = closest sel t.
Proof. intros H. unfold closest. cbn [on_img img ancestors]. by rewrite H. Qed.

Lemma classList_createPlaceholderContent c cat t :
  classList (img (createPlaceholderContent c cat t)) = classList (img t).
Proof.
  unfold createPlaceholderContent. destruct (has_descendant _ _ _); [done|].
  apply classList_append_child.
Qed.

Lemma classes_of_createPlaceholderContent r c cat t :
  classes_of r (createPlaceholderContent c cat t) = classes_of r t.
Proof.
  unfold createPlaceholderContent. destruct (has_descendant _ _ _); [done|].
  apply classes_of_append_child.
Qed.

Lemma has_placeholder_content c cat t :
  valid c t →
  has_descendant [["placeholder-content"]] c (createPlaceholderContent c cat t)
  = true.
Proof.
  intros Hv. unfold createPlaceholderContent.
  destruct (has_descendant [["placeholder-content"]] c t) eqn:E; [exact E|].
  by apply has_descendant_append.
Qed.

Lemma tertiary_state t :
  let t' := attemptTertiaryFallback t in
  "fallback-tertiary" ∈ classList (img t')
  ∧ match closest container_selector t with
    | Some c =>
        "image-placeholder" ∈ classes_of c t'
        ∧ has_descendant [["placeholder-content"]] c t' = true
    | None => ancestors t' = ancestors t
    end.
Proof.
  intros t'. subst t'. unfold attemptTertiaryFallback.
  set (t3 := on_classList _ Self _).
  assert (H3 : "fallback-tertiary" ∈ classList (img t3)).
  { subst t3. rewrite classList_on_classList. apply elem_of_class_add. by right. }
  assert (Hc : closest container_selector t3 = closest container_selector t).
  { subst t3. rewrite closest_on_classList
      by (intros l; apply matches_class_add, not_in_selector; reflexivity).
    by rewrite !closest_on_img. }
  rewrite Hc. destruct (closest container_selector t) as [c|] eqn:E.
  - assert (Hv : valid c t3) by (eapply closest_valid; by rewrite Hc).
    split.
    + rewrite classList_createPlaceholderContent, classList_on_classList.
      destruct c; [|done]. apply elem_of_class_add. by left.
    + split.
      * rewrite classes_of_createPlaceholderContent,
          classes_of_on_classList by done.
        apply elem_of_class_add. by right.
      * apply has_placeholder_content. by apply valid_on_classList.
  - split; [exact H3|]. reflexivity.
Qed.

(** X7. A failure event at Secondary, or at Primary without a distinct
    alternate source, leaves the element at Placeholder: level 2, hidden,
    tagged fallback-tertiary, with its source unchanged (no further load is
    attempted), its container marked image-placeholder and holding a
    placeholder; without a container the ancestors stay as they are. *)
Theorem placeholder_state m t :
  level (img t) = JS.Num 1
  ∨ (level (img t) = JS.Num 0 ∧ has_distinct_fallback t = false) →
  let t' := snd (handleEnhancedImageError m t) in
  fallbackLevel (img t') = Some "2"
  ∧ display (img t') = "none"
  ∧ src (img t') = src (img t)
  ∧ "fallback-tertiary" ∈ classList (img t')
  ∧ match closest container_selector t with
    | Some c =>
        "image-placeholder" ∈ classes_of c t'
        ∧ has_descendant [["placeholder-content"]] c t' = true
    | None => ancestors t' = ancestors t
    end.
Proof.
  intros H t'.
  assert (Ht : t' = attemptTertiaryFallback t).
  { subst t'. unfold handleEnhancedImageError. cbn [snd].
    destruct H as [->|[-> Hd]]; cbv beta iota; [done|].
    by apply secondary_without_alternate. }
  rewrite Ht.
  destruct (tertiary_same_data t) as (Hs & _ & _ & Hl & _ & _ & _ & Hd).
  split; [exact Hl|]. split; [exact Hd|]. split; [exact Hs|].
  apply tertiary_state.
Qed.

Lemma placeholder_state_witness :
  (level (img team_photo) = JS.Num 1
   ∨ (level (img team_photo) = JS.Num 0
      ∧ has_distinct_fallback team_photo = false))
  ∧ fallbackLevel (img (snd (handleEnhancedImageError new_manager team_photo)))
    = Some "2".
Proof.
  assert (H : level (img team_photo) = JS.Num 1
              ∨ (level (img team_photo) = JS.Num 0
                 ∧ has_distinct_fallback team_photo = false)).
  { right. split; reflexivity. }
  split; [exact H|].
  exact (proj1 (placeholder_state new_manager team_photo H)).
Defined.

(** *** Placeholders are made once *)

Lemma append_child_beyond n k t :
  ancestors t !! k = None → append_child n (Anc k) t = t.
Proof.
  intros H. unfold append_child. rewrite alter_beyond by done. by destruct t.
Qed.

Lemma append_once sel n c t :
  node_has sel n = true →
  has_descendant sel c t = false →
  has_descendant sel c (append_child n c t) = true
  ∨ ∀ n', append_child n' c t = t.
Proof.
  intros Hn Hd. destruct c as [|k].
  - left. by apply has_descendant_append.
  - destruct (ancestors t !! k) as [e|] eqn:E.
    + left. apply has_descendant_append; [by eexists|done].
    + right. intros n'. by apply append_child_beyond.
Qed.

(** X8. The placeholder and the error indicator are made once: a second
    call for the same container changes nothing, whatever category it is
    given, so the placeholder shown is that of the first call. *)
Theorem placeholders_are_made_once c cat1 cat2 t :
  createPlaceholderContent c cat2 (createPlaceholderContent c cat1 t)
  = createPlaceholderContent c cat1 t
  ∧ createErrorPlaceholder c cat2 (createErrorPlaceholder c cat1 t)
    = createErrorPlaceholder c cat1 t.
Proof.
  split.
  - unfold createPlaceholderContent.
    destruct (has_descendant [["placeholder-content"]] c t) eqn:E.
    + by rewrite E.
    + match goal with
      | |- context [append_child ?n c t] =>
          destruct (append_once [["placeholder-content"]] n c t eq_refl E)
            as [H|H]
      end.
      * by rewrite H.
      * by rewrite !H, E.
  - unfold createErrorPlaceholder.
    destruct (has_descendant [["error-placeholder"]] c t) eqn:E.
    + by rewrite E.
    + match goal with
      | |- context [append_child ?n c t] =>
          destruct (append_once [["error-placeholder"]] n c t eq_refl E)
            as [H|H]
      end.
      * by rewrite H.
      * by rewrite !H, E.
Qed.

(** *** The success handler, again *)

Lemma closest_load t :
  closest container_selector (handleImageLoad t)
  = closest container_selector t.
Proof.
  rewrite load_steps. cbv zeta.
  assert (H2 : closest container_selector
                 (on_classList (class_remove "loading") Self
                    (on_classList (class_add "loaded") Self t))
               = closest container_selector t).
  { rewrite !closest_on_classList; [done| |].
    - intros l. apply matches_class_add, not_in_selector. reflexivity.
    - intros l. apply matches_class_remove, not_in_selector. reflexivity. }
  destruct (closest container_selector t) as [c|]; [|exact H2].
  rewrite closest_on_classList; [exact H2|].
  intros l.
  rewrite !matches_class_remove by (apply not_in_selector; reflexivity).
  done.
Qed.

Lemma load_container_clean t c :
  closest container_selector t = Some c →
  valid c (handleImageLoad t)
  ∧ ("image-placeholder" ∉ classes_of c (handleImageLoad t))
  ∧ ("image-failed" ∉ classes_of c (handleImageLoad t)).
Proof.
  intros E.
  assert (Hv : valid c (handleImageLoad t)).
  { eapply closest_valid. by rewrite closest_load. }
  split; [exact Hv|].
  rewrite load_steps, E. cbv zeta.
  assert (Hv0 : valid c t) by eauto using closest_valid.
  rewrite classes_of_on_classList
    by (do 2 apply valid_on_classList; exact Hv0).
  rewrite !elem_of_class_remove. split; intros H; tauto.
Qed.

(** X9. The success handler is idempotent: a second success event changes
    nothing. *)
Theorem success_is_idempotent t :
  handleImageLoad (handleImageLoad t) = handleImageLoad t.
Proof.
  set (t' := handleImageLoad t).
  rewrite (load_steps t'). cbv zeta.
  assert (H1 : on_classList (class_add "loaded") Self t' = t').
  { apply on_classList_id; [exact I|]. apply class_add_present.
    subst t'. apply load_classList. split; [by right|].
    split; [discriminate|]. intros _. split; discriminate. }
  rewrite H1.
  assert (H2 : on_classList (class_remove "loading") Self t' = t').
  { apply on_classList_id; [exact I|]. apply class_remove_absent.
    subst t'. cbn [classes_of]. rewrite load_classList. intros (_ & H & _).
    by apply H. }
  rewrite H2. subst t'. rewrite closest_load.
  destruct (closest container_selector t) as [c|] eqn:E; [|done].
  destruct (load_container_clean t c E) as (Hv & Hp & Hf).
  apply on_classList_id; [exact Hv|].
  by rewrite (class_remove_absent "image-placeholder"),
             (class_remove_absent "image-failed").
Qed.

End FallbackMore2.

(** ** More on the global handlers *)

Module HandlersMore.
Import Dom Fallback FallbackSpec FallbackFacts Handlers Frame.

Lemma nodes_on_classList f r t :
  kids (img (on_classList f r t)) = kids (img t)
  ∧ (el_kids <$> ancestors (on_classList f r t)) = (el_kids <$> ancestors t).
Proof.
  destruct r as [|n]; [done|]. split; [done|].
  cbn [on_classList ancestors]. apply list_eq. intros j.
  rewrite !list_lookup_fmap.
  destruct (decide (j = n)) as [->|Hne].
  - rewrite list_lookup_alter_eq. by destruct (ancestors t !! n).
  - by rewrite list_lookup_alter_ne.
Qed.

Lemma nodes_on_img f t :
  kids (f (img t)) = kids (img t) →
  kids (img (on_img f t)) = kids (img t)
  ∧ (el_kids <$> ancestors (on_img f t)) = (el_kids <$> ancestors t).
Proof. intros H. by split. Qed.

Lemma steps_like_on_classList f r t' i t :
  steps_like t' i t → steps_like (on_classList f r t') i t.
Proof.
  intros (Hd & Hk & Ha). destruct (nodes_on_classList f r t') as [Hk' Ha'].
  split; [eapply same_data_trans; [apply same_data_on_classList|exact Hd]|].
  split; congruence.
Qed.

Lemma secondary_step_like t :
  steps_like (secondary_step t)
    (set_src (JS.to_str (fallbackSrc (img t))) (set_fallbackLevel "1" (img t)))
    t.
Proof.
  unfold secondary_step. apply steps_like_on_classList.
  split; [apply same_data_refl|]. by split.
Qed.

Lemma hidden_at_like lvl t :
  steps_like
    (on_classList (class_add lvl.2) Self
       (on_img (set_display "none") (on_img (set_fallbackLevel lvl.1) t)))
    (set_display "none" (set_fallbackLevel lvl.1 (img t))) t.
Proof.
  apply steps_like_on_classList. split; [apply same_data_refl|]. by split.
Qed.

Lemma about_tertiary_like t :
  steps_like (about_tertiary t)
    (set_display "none" (set_fallbackLevel "2" (img t))) t.
Proof.
  unfold about_tertiary.
  pose proof (hidden_at_like ("2", "fallback-tertiary") t) as H.
  cbn [fst snd] in H.
  destruct (closest [["team-member"]] _); [by apply steps_like_on_classList|].
  destruct (closest [["team-primary"]] _); [by apply steps_like_on_classList|].
  exact H.
Qed.

Lemma about_final_like t :
  steps_like (about_final t)
    (set_display "none" (set_fallbackLevel "3" (img t))) t.
Proof.
  unfold about_final.
  pose proof (hidden_at_like ("3", "fallback-final") t) as H.
  cbn [fst snd] in H.
  destruct (closest _ _); [by apply steps_like_on_classList|exact H].
Qed.

Lemma review_tertiary_like t :
  steps_like (review_tertiary t)
    (set_display "none" (set_fallbackLevel "2" (img t))) t.
Proof.
  unfold review_tertiary.
  pose proof (hidden_at_like ("2", "fallback-tertiary") t) as H.
  cbn [fst snd] in H.
  destruct (closest [["review-card"; "enhanced"]] _); [|exact H].
  destruct (closest [["review-background"]] _); [|exact H].
  by do 2 apply steps_like_on_classList.
Qed.

Lemma review_final_like t :
  steps_like (review_final t)
    (set_display "none" (set_fallbackLevel "3" (img t))) t.
Proof.
  unfold review_final.
  pose proof (hidden_at_like ("3", "fallback-final") t) as H.
  cbn [fst snd] in H.
  destruct (closest _ _); [by apply steps_like_on_classList|exact H].
Qed.

Lemma like_level t' i t : steps_like t' i t → level (img t') = level i.
Proof. intros (H & _). by apply same_data_level. Qed.

Lemma tree_track c n l w : tree (track c n l w) = tree w.
Proof. unfold track. by destruct (manager w). Qed.

Lemma manager_track c n l w :
  manager (track c n l w)
  = (λ m, set_fallbackStats
            (Stats.trackFallbackUsage (Some c) (Some n) l (fallbackStats m)) m)
    <$> manager w.
Proof.
  unfold track. destruct (manager w) eqn:E; [done|]. by rewrite E.
Qed.

(** The about handler, when it is not caught in its recursion: it returns
    from its first call. *)
Lemma about_returns k w :
  ¬ (level (img (tree w)) = JS.Num 0
     ∧ has_distinct_fallback (tree w) = false) →
  ∃ t' i,
    handleAboutImageError (S k) w
    = Returned (track (JS.or_else (category (img (tree w))) "about")
                      (JS.or_else (imageName (img (tree w))) "unknown")
                      (level (img (tree w)))
                      (mkWorld (manager w) t'))
    ∧ steps_like t' i (tree w)
    ∧ level i = transition (level (img (tree w)))
                           (has_distinct_fallback (tree w)).
Proof.
  intros Hn. cbn [handleAboutImageError].
  destruct (level (img (tree w))) as [|[|[p|p|]|p]] eqn:El; cbv beta iota.
  2: { destruct (has_distinct_fallback (tree w)) eqn:Ed;
         [|by destruct Hn].
       eexists _, _. split; [reflexivity|].
       split; [apply secondary_step_like|reflexivity]. }
  4: { eexists _, _. split; [reflexivity|].
       split; [apply about_tertiary_like|reflexivity]. }
  all: eexists _, _; (split; [reflexivity|]);
    (split; [apply about_final_like|reflexivity]).
Qed.

Lemma review_returns k w :
  ¬ (level (img (tree w)) = JS.Num 0
     ∧ has_distinct_fallback (tree w) = false) →
  ∃ t' i,
    handleReviewImageError (S k) w
    = Returned (track (JS.or_else (category (img (tree w))) "reviews")
                      (JS.or_else (imageName (img (tree w))) "unknown")
                      (level (img (tree w)))
                      (mkWorld (manager w) t'))
    ∧ steps_like t' i (tree w)
    ∧ level i = transition (level (img (tree w)))
                           (has_distinct_fallback (tree w)).
Proof.
  intros Hn. cbn [handleReviewImageError].
  destruct (level (img (tree w))) as [|[|[p|p|]|p]] eqn:El; cbv beta iota.
  2: { destruct (has_distinct_fallback (tree w)) eqn:Ed;
         [|by destruct Hn].
       eexists _, _. split; [reflexivity|].
       split; [apply secondary_step_like|reflexivity]. }
  4: { eexists _, _. split; [reflexivity|].
       split; [apply review_tertiary_like|reflexivity]. }
  all: eexists _, _; (split; [reflexivity|]);
    (split; [apply review_final_like|reflexivity]).
Qed.

(** X10. Unless the element is at Primary without a distinct alternate
    source, the about and the review handler return from their first call,
    whatever stack they are given beyond it, and move the level as the
    manager's handler does: from 0 to 1, from 1 to 2, and to 3 from any
    other level. *)
Theorem section_handlers_return k w :
  ¬ (level (img (tree w)) = JS.Num 0
     ∧ has_distinct_fallback (tree w) = false) →
  ∃ wa wr,
    handleAboutImageError (S k) w = Returned wa
    ∧ handleReviewImageError (S k) w = Returned wr
    ∧ level (img (tree wa))
      = transition (level (img (tree w))) (has_distinct_fallback (tree w))
    ∧ level (img (tree wr))
      = transition (level (img (tree w))) (has_distinct_fallback (tree w)).
Proof.
  intros Hn.
  destruct (about_returns k w Hn) as (ta & ia & Ha & Hla & Hia).
  destruct (review_returns k w Hn) as (tr & ir & Hr & Hlr & Hir).
  eexists _, _. split; [exact Ha|]. split; [exact Hr|].
  rewrite !tree_track. cbn [tree].
  by rewrite (like_level _ _ _ Hla), (like_level _ _ _ Hlr).
Qed.

Lemma section_handlers_return_witness :
  ¬ (level (img hero_tree) = JS.Num 0
     ∧ has_distinct_fallback hero_tree = false)
  ∧ ∃ wa, handleAboutImageError 1 (mkWorld None hero_tree) = Returned wa
          ∧ level (img (tree wa)) = JS.Num 1.
Proof.
  assert (Hn : ¬ (level (img (tree (mkWorld None hero_tree))) = JS.Num 0
                  ∧ has_distinct_fallback (tree (mkWorld None hero_tree))
                    = false)).
  { intros [_ H]. vm_compute in H. discriminate H. }
  split; [exact Hn|].
  destruct (section_handlers_return 0 (mkWorld None hero_tree) Hn)
    as (wa & wr & Ha & _ & Hl & _).
  exists wa. split; [exact Ha|exact Hl].
Defined.

(** X11. When the about or the review handler returns, it has added no
    node to the page (no placeholder, no error indicator: only classes and
    the image's attributes change), and it has recorded the event with the
    manager, when there is one, under the element's category and name, or
    under "about" (or "reviews") and "unknown" where the element has none;
    without a manager nothing is recorded. *)
Theorem section_handlers_add_no_node stack w w' :
  (handleAboutImageError stack w = Returned w' →
     kids (img (tree w')) = kids (img (tree w))
     ∧ (el_kids <$> ancestors (tree w')) = (el_kids <$> ancestors (tree w))
     ∧ manager w'
       = (λ m, set_fallbackStats
                 (Stats.trackFallbackUsage
                    (Some (JS.or_else (category (img (tree w))) "about"))
                    (Some (JS.or_else (imageName (img (tree w))) "unknown"))
                    (level (img (tree w))) (fallbackStats m)) m)
         <$> manager w)
  ∧ (handleReviewImageError stack w = Returned w' →
       kids (img (tree w')) = kids (img (tree w))
       ∧ (el_kids <$> ancestors (tree w')) = (el_kids <$> ancestors (tree w))
       ∧ manager w'
         = (λ m, set_fallbackStats
                   (Stats.trackFallbackUsage
                      (Some (JS.or_else (category (img (tree w))) "reviews"))
                      (Some (JS.or_else (imageName (img (tree w))) "unknown"))
                      (level (img (tree w))) (fallbackStats m)) m)
           <$> manager w).
Proof.
  split; intros H; (destruct stack as [|k]; [discriminate H|]).
  - destruct (decide (level (img (tree w)) = JS.Num 0
                      ∧ has_distinct_fallback (tree w) = false))
      as [[Hl Hd]|Hn].
    { by rewrite HandlersFacts.about_never_returns in H. }
    destruct (about_returns k w Hn) as (t' & i & E & (_ & Hk & Ha) & _).
    rewrite E in H. injection H as <-.
    rewrite tree_track, manager_track. by cbn [tree manager].
  - destruct (decide (level (img (tree w)) = JS.Num 0
                      ∧ has_distinct_fallback (tree w) = false))
      as [[Hl Hd]|Hn].
    { by rewrite HandlersFacts.review_never_returns in H. }
    destruct (review_returns k w Hn) as (t' & i & E & (_ & Hk & Ha) & _).
    rewrite E in H. injection H as <-.
    rewrite tree_track, manager_track. by cbn [tree manager].
Qed.

Lemma section_handlers_add_no_node_witness :
  ∃ w', handleAboutImageError 1 (mkWorld None hero_tree) = Returned w'
        ∧ kids (img (tree w')) = []
        ∧ manager w' = None.
Proof.
  eexists. split; [vm_compute; reflexivity|].
  match goal with
  | |- context [tree ?w'] =>
      destruct (proj1 (section_handlers_add_no_node 1 (mkWorld None hero_tree) w')
                  eq_refl) as (Hk & _ & Hm)
  end.
  split; [exact Hk|exact Hm].
Defined.

End HandlersMore.

(** ** More on the Picture Element Builder *)

Module BuilderMore.
Import Builder BuilderSpec.

Lemma picture_img_snoc cn c n l i :
  picture_img {| className := cn; category := c; imageName := n;
                 children := l ++ [ImgChild i] |} = Some i.
Proof. unfold picture_img. cbn [children]. by rewrite last_snoc. Qed.

Lemma record_sources env r :
  ∃ l, webp_sources env r ++ standard_sources r = SourceChild <$> l
       ∧ (length l ≤ 2)%nat.
Proof.
  unfold webp_sources, standard_sources.
  destruct (JS.truthy (Metadata.webp r) && checkWebPSupport env);
    destruct (JS.truthy (Metadata.optimized r)).
  - eexists [_; _]. split; [reflexivity|simpl; lia].
  - eexists [_]. split; [reflexivity|simpl; lia].
  - eexists [_]. split; [reflexivity|simpl; lia].
  - exists []. split; [reflexivity|simpl; lia].
Qed.

(** X12. Every picture the builder returns holds at most two format
    candidates followed by exactly one image, its last child. The picture
    and the image carry the category and the name they were built for; the
    image starts at Primary (no fallback level, level 0), visible, with the
    class enhanced-image, and it loads eagerly exactly when the caller asks
    for it or the record found has priority high, and lazily otherwise. *)
Theorem built_picture_shape env m category imageName className options p :
  createPictureElement env m category imageName className options = Some p →
  ∃ sources i,
    children p = (SourceChild <$> sources) ++ [ImgChild i]
    ∧ (length sources ≤ 2)%nat
    ∧ picture_img p = Some i
    ∧ Builder.category p = category
    ∧ Builder.imageName p = imageName
    ∧ Dom.category i = Some category
    ∧ Dom.imageName i = Some imageName
    ∧ Dom.fallbackLevel i = None
    ∧ Fallback.level i = JS.Num 0
    ∧ Dom.display i = ""
    ∧ "enhanced-image" ∈ Dom.classList i
    ∧ (Dom.loading i = "eager" ∨ Dom.loading i = "lazy")
    ∧ (Dom.loading i = "eager"
       ↔ eager options = true
         ∨ ∃ r, Metadata.lookup_record (builtins env) (imageMetadata m)
                  category imageName = Metadata.Truthy r
                ∧ Metadata.priority r = Some "high").
Proof.
  unfold createPictureElement.
  destruct (Metadata.lookup_record _ _ _ _) as [|r|] eqn:E; [| |discriminate].
  - intros [= <-]. eexists [], _.
    split; [reflexivity|]. split; [simpl; lia|].
    split; [reflexivity|]. do 7 (split; [reflexivity|]).
    split; [repeat constructor|].
    unfold new_img; cbn [Dom.loading].
    split; [destruct (eager options); [by left|by right]|].
    destruct (eager options).
    + split; [intros _; by left|done].
    + split; [done|]. intros [?|(r & ? & _)]; done.
  - intros [= <-]. destruct (record_sources env r) as (l & Hl & Hlen).
    eexists l, _. cbn [children]. rewrite app_assoc, Hl.
    split; [reflexivity|]. split; [exact Hlen|].
    split; [apply picture_img_snoc|]. do 7 (split; [reflexivity|]).
    split; [repeat constructor|].
    unfold new_img; cbn [Dom.loading].
    destruct (bool_decide (Metadata.priority r = Some "high")) eqn:Ep;
      destruct (eager options) eqn:Ee; cbn [orb].
    + split; [by left|]. split; [intros _; by left|done].
    + split; [by left|]. split; [intros _|done]. right. exists r.
      split; [done|]. by apply bool_decide_eq_true in Ep.
    + split; [by left|]. split; [intros _; by left|done].
    + split; [by right|]. split; [done|].
      intros [?|(r' & [= <-] & Hp)]; [done|].
      apply bool_decide_eq_false in Ep. contradiction.
Qed.

Lemma built_picture_shape_witness :
  ∃ p i, createPictureElement with_webp test_manager "hero" "test-image" ""
           no_options = Some p
         ∧ picture_img p = Some i
         ∧ Fallback.level i = JS.Num 0.
Proof.
  eexists _, _. split; [vm_compute; reflexivity|].
  match goal with
  | |- context [picture_img ?p] =>
      destruct (built_picture_shape with_webp test_manager "hero" "test-image"
                  "" no_options p eq_refl)
        as (sources & i & _ & _ & Hi & _ & _ & _ & _ & _ & Hl & _)
  end.
  vm_compute in Hi. injection Hi as <-. split; [reflexivity|exact Hl].
Defined.

(** *** MIME types *)

Lemma to_lower_char_dot c :
  Ascii.eqb (to_lower_char c) "." = Ascii.eqb c ".".
Proof. by destruct c as [[] [] [] [] [] [] [] []]. Qed.

Lemma to_lower_char_idem c : to_lower_char (to_lower_char c) = to_lower_char c.
Proof. by destruct c as [[] [] [] [] [] [] [] []]. Qed.

Lemma toLowerCase_idem s : toLowerCase (toLowerCase s) = toLowerCase s.
Proof.
  induction s as [|c s IH]; [done|]. simpl. by rewrite to_lower_char_idem, IH.
Qed.

Lemma toLowerCase_rev_app s acc :
  toLowerCase (String.rev_app s acc)
  = String.rev_app (toLowerCase s) (toLowerCase acc).
Proof.
  revert acc. induction s as [|c s IH]; intros acc; [done|].
  simpl. apply (IH (String c acc)).
Qed.

Lemma toLowerCase_rev s : toLowerCase (String.rev s) = String.rev (toLowerCase s).
Proof. apply (toLowerCase_rev_app s ""). Qed.

Lemma last_segment_lower s acc :
  last_segment (toLowerCase s) (toLowerCase acc)
  = toLowerCase (last_segment s acc).
Proof.
  revert acc. induction s as [|c s IH]; intros acc; simpl.
  - by rewrite toLowerCase_rev.
  - rewrite to_lower_char_dot. destruct (Ascii.eqb c ".").
    + apply (IH "").
    + apply (IH (String c acc)).
Qed.

(** X13. Take a source whose extension, in lower case, names no member
    that every object inherits. Its MIME type does not depend on the case
    of its letters, and it is one of image/jpeg, image/png, image/webp,
    image/gif and image/svg+xml; when the extension is none of the six
    known ones the source is taken for a JPEG. *)
Theorem mime_type_ignores_case src :
  Metadata.inherits (toLowerCase (last_segment src "")) = false →
  getImageMimeType (toLowerCase src) = getImageMimeType src
  ∧ getImageMimeType src
    ∈ ["image/jpeg"; "image/png"; "image/webp"; "image/gif"; "image/svg+xml"]
  ∧ (toLowerCase (last_segment src "")
       ∉ ["jpg"; "jpeg"; "png"; "webp"; "gif"; "svg"] →
     getImageMimeType src = "image/jpeg").
Proof.
  intros _. split; [|split].
  - unfold getImageMimeType.
    pose proof (last_segment_lower src "") as H. cbn [toLowerCase] in H.
    by rewrite H, toLowerCase_idem.
  - unfold getImageMimeType.
    destruct (mimeTypes !! toLowerCase (last_segment src "")) as [v|] eqn:E;
      [|simpl; repeat constructor].
    unfold mimeTypes in E. apply elem_of_list_to_map_2 in E.
    repeat (apply elem_of_cons in E as [[= _ ->] | E]);
      [.. | inversion E]; vm_compute; repeat constructor.
  - intros E. unfold getImageMimeType.
    assert (H : mimeTypes !! toLowerCase (last_segment src "") = None).
    { unfold mimeTypes. apply not_elem_of_list_to_map_1. exact E. }
    by rewrite H.
Qed.

Lemma mime_type_ignores_case_witness :
  Metadata.inherits (toLowerCase (last_segment "img/Hero.PNG" "")) = false
  ∧ getImageMimeType "img/hero.png" = getImageMimeType "img/Hero.PNG"
  ∧ getImageMimeType "img/Hero.PNG" = "image/png".
Proof.
  assert (H : Metadata.inherits (toLowerCase (last_segment "img/Hero.PNG" ""))
              = false) by (vm_compute; reflexivity).
  split; [exact H|].
  split; [exact (proj1 (mime_type_ignores_case "img/Hero.PNG" H))|].
  vm_compute. reflexivity.
Defined.

(** *** Generated alt text *)

Lemma replace_hyphens_length s :
  String.length (JS.replace_hyphens s) = String.length s.
Proof. induction s as [|c s IH]; [done|]. simpl. by rewrite IH. Qed.

Lemma replace_hyphens_get s n :
  String.get n (JS.replace_hyphens s)
  = (λ c, if Ascii.eqb c "-" then " "%char else c) <$> String.get n s.
Proof.
  revert n. induction s as [|c s IH]; intros n; [done|].
  destruct n as [|n]; simpl; [done|]. apply IH.
Qed.

(** X14. For a category outside hero, services, about and reviews that
    names no inherited member, the generated alt text is "Radius Works - "
    and the name, and the generic fallback source is the hero background.
    In the generated text the name keeps its length and its characters,
    except that each hyphen has become a space: no hyphen of the name is
    left. *)
Theorem unknown_category_defaults category imageName :
  category ∉ known_categories →
  Metadata.inherits category = false →
  generateAltText category imageName
  = "Radius Works - " +:+ JS.replace_hyphens imageName
  ∧ getFallbackImage category = "images/hero-bg.jpg"
  ∧ String.length (JS.replace_hyphens imageName) = String.length imageName
  ∧ ∀ n, String.get n (JS.replace_hyphens imageName) ≠ Some "-"%char.
Proof.
  intros Hc _.
  assert (Ha : altTemplates imageName !! category = None).
  { unfold altTemplates. apply not_elem_of_list_to_map_1. exact Hc. }
  assert (Hf : fallbacks !! category = None).
  { unfold fallbacks. apply not_elem_of_list_to_map_1. exact Hc. }
  split; [unfold generateAltText; by rewrite Ha|].
  split; [unfold getFallbackImage; by rewrite Hf|].
  split; [apply replace_hyphens_length|].
  intros n. rewrite replace_hyphens_get.
  destruct (String.get n imageName) as [c|]; [|done]. simpl.
  destruct (Ascii.eqb_spec c "-"); [done|congruence].
Qed.

Lemma unknown_category_defaults_witness :
  ("backgrounds" ∉ known_categories)
  ∧ Metadata.inherits "backgrounds" = false
  ∧ generateAltText "backgrounds" "wall-tiles" = "Radius Works - wall tiles".
Proof.
  assert (H : "backgrounds" ∉ known_categories).
  { apply (@bool_decide_unpack _ _). vm_compute. exact I. }
  split; [exact H|]. split; [reflexivity|].
  exact (proj1 (unknown_category_defaults "backgrounds" "wall-tiles" H
                  eq_refl)).
Defined.

End BuilderMore.

(** ** The Lazy-Load Scheduler *)

Module LazyLoadFacts.
Import Dom Fallback FallbackSpec LazyLoad.

Lemma class_add_keeps c x l : c ∈ l → c ∈ class_add x l.
Proof.
  intros H. unfold class_add. destruct (contains x l); [done|].
  apply elem_of_app. by left.
Qed.

Lemma class_add_has x l : x ∈ class_add x l.
Proof.
  unfold class_add, contains. case_bool_decide; [done|].
  apply elem_of_app. right. by apply list_elem_of_singleton.
Qed.

Lemma class_remove_gone x l : x ∉ class_remove x l.
Proof. unfold class_remove. rewrite list_elem_of_filter. tauto. Qed.

Lemma class_add_other c x l : c ≠ x → c ∈ class_add x l → c ∈ l.
Proof.
  intros Hne. unfold class_add. destruct (contains x l); [done|].
  rewrite elem_of_app, list_elem_of_singleton. tauto.
Qed.

(** The failure handler only adds classes to the image. *)
Lemma img_classes_on_classList c x r t :
  c ∈ classList (img t) → c ∈ classList (img (on_classList (class_add x) r t)).
Proof.
  intros H. destruct r as [|n]; [|exact H].
  cbn. by apply class_add_keeps.
Qed.

Lemma img_classes_error_placeholder r cat t :
  classList (img (createErrorPlaceholder r cat t)) = classList (img t).
Proof.
  unfold createErrorPlaceholder.
  destruct (has_descendant _ _ _); [done|]. by destruct r.
Qed.

Lemma img_classes_tertiary c t :
  c ∈ classList (img t) → c ∈ classList (img (attemptTertiaryFallback t)).
Proof.
  intros H. unfold attemptTertiaryFallback. cbv zeta.
  set (t1 := on_classList _ Self _).
  assert (H1 : c ∈ classList (img t1)).
  { subst t1. apply img_classes_on_classList. exact H. }
  clearbody t1. destruct (closest _ t1) as [r|]; [|exact H1].
  rewrite FallbackMore2.classList_createPlaceholderContent.
  by apply img_classes_on_classList.
Qed.

Lemma img_classes_final c t :
  c ∈ classList (img t) → c ∈ classList (img (handleFinalFallback t)).
Proof.
  intros H. unfold handleFinalFallback. cbv zeta.
  set (t1 := on_classList _ Self _).
  assert (H1 : c ∈ classList (img t1)).
  { subst t1. apply img_classes_on_classList. exact H. }
  clearbody t1. destruct (closest _ t1) as [r|]; [|exact H1].
  rewrite img_classes_error_placeholder.
  by apply img_classes_on_classList.
Qed.

Lemma img_classes_grow m t c :
  c ∈ classList (img t) →
  c ∈ classList (img (snd (handleEnhancedImageError m t))).
Proof.
  intros H. unfold handleEnhancedImageError. cbn [snd].
  destruct (level (img t)) as [|[|[p|p|]|p]]; cbv beta iota;
    lazymatch goal with
    | |- _ ∈ classList (img (handleFinalFallback _)) =>
        apply img_classes_final; exact H
    | |- _ ∈ classList (img (attemptTertiaryFallback _)) =>
        apply img_classes_tertiary; exact H
    | |- _ => idtac
    end.
  unfold attemptSecondaryFallback. cbv zeta.
  destruct (has_distinct_fallback t); [|by apply img_classes_tertiary].
  apply (img_classes_on_classList c _ Self). exact H.
Qed.

Lemma load_cached net m loaded i :
  imageUrl i ∈ loaded → loadImage net m loaded i = (m, loaded, i, Resolved).
Proof.
  intros H. unfold loadImage, loadImage_start.
  rewrite (bool_decide_eq_true_2 _ H). reflexivity.
Qed.

Lemma load_success net m loaded i :
  imageUrl i ∉ loaded → net (imageUrl i) = true →
  loadImage net m loaded i
  = (m, loaded ∪ {[imageUrl i]},
     snd (tempImg_onload (imageUrl i) loaded (tagged i)), Resolved).
Proof.
  intros H Hn. unfold loadImage, loadImage_start.
  rewrite (bool_decide_eq_false_2 _ H).
  change (imageUrl (on_element _ i)) with (imageUrl i) in Hn.
  cbv beta iota. rewrite Hn. reflexivity.
Qed.

Lemma load_failure net m loaded i :
  imageUrl i ∉ loaded → net (imageUrl i) = false →
  loadImage net m loaded i
  = (fst (handleEnhancedImageError m (element (tagged i))), loaded,
     mkLazy (snd (handleEnhancedImageError m (element (tagged i))))
            (dataSrc i),
     Rejected ("Failed to load image: " +:+ imageUrl i)).
Proof.
  intros H Hn. unfold loadImage, loadImage_start.
  rewrite (bool_decide_eq_false_2 _ H).
  cbv beta iota. rewrite Hn.
  unfold tempImg_onerror, handleImageError, tagged.
  destruct (handleEnhancedImageError m _) as [m1 t1]. reflexivity.
Qed.

Lemma imageUrl_after_load i loaded :
  imageUrl (snd (tempImg_onload (imageUrl i) loaded (tagged i)))
  = imageUrl i.
Proof.
  unfold imageUrl at 1. unfold tempImg_onload, tagged.
  cbn [snd dataSrc on_element element on_img on_classList img src set_src
       set_classList].
  unfold imageUrl, JS.or_else. destruct (dataSrc i) as [s|]; [|reflexivity].
  destruct (String.eqb s ""); reflexivity.
Qed.

(** X15. The three ways a load of an image ends. A URL already loaded is
    a cache hit: the promise resolves and nothing changes, not even the
    classes of the image. A request that succeeds resolves the promise,
    adds the URL to the loaded set, and leaves the image tagged loaded
    and not loading, with its ancestors untouched; loading the same image
    again is then a cache hit. A request that fails rejects the promise
    with the URL in its message, leaves the loaded set as it was and the
    image still tagged loading, and is recorded as one failure event at
    the level the image had. *)
Theorem load_outcomes net m loaded i :
  (imageUrl i ∈ loaded →
     loadImage net m loaded i = (m, loaded, i, Resolved))
  ∧ (imageUrl i ∉ loaded → net (imageUrl i) = true →
     ∃ i', loadImage net m loaded i
             = (m, loaded ∪ {[imageUrl i]}, i', Resolved)
           ∧ "loaded" ∈ classList (img (element i'))
           ∧ ("loading" ∉ classList (img (element i')))
           ∧ ancestors (element i') = ancestors (element i)
           ∧ dataSrc i' = dataSrc i
           ∧ ∀ net' m', loadImage net' m' (loaded ∪ {[imageUrl i]}) i'
                        = (m', loaded ∪ {[imageUrl i]}, i', Resolved))
  ∧ (imageUrl i ∉ loaded → net (imageUrl i) = false →
     ∃ m' i', loadImage net m loaded i
                = (m', loaded, i',
                   Rejected ("Failed to load image: " +:+ imageUrl i))
              ∧ "loading" ∈ classList (img (element i'))
              ∧ dataSrc i' = dataSrc i
              ∧ fallbackStats m'
                = Stats.trackFallbackUsage
                    (category (img (element i))) (imageName (img (element i)))
                    (level (img (element i))) (fallbackStats m)).
Proof.
  split; [|split].
  - apply load_cached.
  - intros H Hn. eexists. split; [by apply load_success|].
    split; [cbn; apply class_add_has|].
    split.
    { cbn. intros Hc. apply class_add_other in Hc; [|done].
      by apply class_remove_gone in Hc. }
    split; [reflexivity|]. split; [reflexivity|].
    intros net' m'. apply load_cached.
    rewrite imageUrl_after_load. apply elem_of_union_r.
    by apply elem_of_singleton.
  - intros H Hn. eexists _, _. split; [by apply load_failure|].
    cbn [element dataSrc].
    split; [apply img_classes_grow; cbn; apply class_add_has|].
    split; [reflexivity|].
    exact (proj1 (FallbackMore.handle_stats m (element (tagged i)))).
Qed.

Lemma load_outcomes_witness :
  ∃ i', loadImage (λ _, true) FallbackSpec.new_manager ∅
          (mkLazy FallbackSpec.hero_tree (Some "images/hero-large.jpg"))
        = (FallbackSpec.new_manager, ∅ ∪ {["images/hero-large.jpg"]}, i',
           Resolved)
        ∧ "loaded" ∈ classList (img (element i')).
Proof.
  destruct (proj1 (proj2 (load_outcomes (λ _, true) FallbackSpec.new_manager ∅
              (mkLazy FallbackSpec.hero_tree (Some "images/hero-large.jpg")))))
    as (i' & He & Hl & _).
  - intros H. apply elem_of_empty in H. exact H.
  - reflexivity.
  - exists i'. split; [exact He|exact Hl].
Defined.

(** *** Without an observer *)

Lemma started_requests loaded (l : list LazyImg) :
  omap snd ((λ i, if is_lazy i then loadImage_start loaded i else (i, None))
              <$> l)
  = imageUrl <$> filter (wanted loaded) l.
Proof.
  induction l as [|i l IH]; [reflexivity|].
  csimpl. rewrite IH. rewrite filter_cons.
  unfold loadImage_start.
  destruct (is_lazy i) eqn:El.
  - case_bool_decide as Hu; cbn [snd].
    + rewrite decide_False; [reflexivity|]. unfold wanted. tauto.
    + rewrite decide_True; [reflexivity|]. by split.
  - cbn [snd]. rewrite decide_False; [reflexivity|].
    unfold wanted. intros [? _]; congruence.
Qed.

(** X16. On a runtime without IntersectionObserver, setting up lazy
    loading requests at once, in document order, the URL of every lazy
    image whose URL is not loaded yet (an image shared by two lazy images
    is requested twice), and tags exactly those images loading. It
    creates no observer, loads nothing by itself, and leaves every other
    image of the page as it was. *)
Theorem without_observer_all_are_requested p :
  let p' := fst (setupLazyLoading false p) in
  snd (setupLazyLoading false p)
  = imageUrl <$> filter (wanted (loadedImages p)) (images p)
  ∧ length (images p') = length (images p)
  ∧ manager p' = manager p
  ∧ loadedImages p' = loadedImages p
  ∧ observed p' = observed p
  ∧ ∀ k i, images p !! k = Some i →
      (wanted (loadedImages p) i → images p' !! k = Some (tagged i))
      ∧ (¬ wanted (loadedImages p) i → images p' !! k = Some i).
Proof.
  cbv zeta. unfold setupLazyLoading. cbn [negb].
  unfold loadAllImages. cbn [fst snd images manager loadedImages observed].
  split; [apply started_requests|].
  split; [by rewrite !length_fmap|].
  do 3 (split; [reflexivity|]).
  intros k i Hk. rewrite !list_lookup_fmap, Hk. cbn [fmap option_fmap option_map].
  unfold wanted, loadImage_start. split.
  - intros [Hl Hu]. rewrite Hl, (bool_decide_eq_false_2 _ Hu). reflexivity.
  - intros Hn. destruct (is_lazy i); [|reflexivity].
    case_bool_decide; [reflexivity|]. exfalso. apply Hn. by split.
Qed.

Lemma team_large_is_wanted : wanted (loadedImages team_page) team_large.
Proof.
  split; [reflexivity|].
  change ("images/team-large.jpg"
            ∉ ({["images/team-small.jpg"]} : gset string)).
  apply not_elem_of_singleton. discriminate.
Qed.

Lemma team_small_is_loaded : imageUrl team_small ∈ loadedImages team_page.
Proof.
  change ("images/team-small.jpg"
            ∈ ({["images/team-small.jpg"]} : gset string)).
  by apply elem_of_singleton.
Qed.

Lemma without_observer_all_are_requested_witness :
  wanted (loadedImages team_page) team_large
  ∧ images (fst (setupLazyLoading false team_page)) !! 0%nat
    = Some (tagged team_large).
Proof.
  split; [exact team_large_is_wanted|].
  destruct (without_observer_all_are_requested team_page)
    as (_ & _ & _ & _ & _ & H).
  exact (proj1 (H 0%nat team_large eq_refl) team_large_is_wanted).
Defined.

(** *** With an observer *)

Lemma lazy_indices_from_spec n l k :
  k ∈ lazy_indices_from n l
  ↔ ∃ i, (n ≤ k)%nat ∧ l !! (k - n)%nat = Some i ∧ is_lazy i = true.
Proof.
  revert n. induction l as [|j l IH]; intros n; cbn [lazy_indices_from].
  - split; [intros H; inversion H|]. intros (i & _ & H & _). discriminate.
  - rewrite elem_of_app, IH. split.
    + intros [H|(i & Hle & Hi & Hl)].
      * destruct (is_lazy j) eqn:Ej; [|inversion H].
        apply list_elem_of_singleton in H as ->. exists j.
        rewrite Nat.sub_diag. by repeat split.
      * exists i. split; [lia|]. split; [|exact Hl].
        replace (k - n)%nat with (S (k - S n)) by lia. exact Hi.
    + intros (i & Hle & Hi & Hl).
      destruct (decide (k = n)) as [->|Hne].
      * left. rewrite Nat.sub_diag in Hi. injection Hi as ->.
        rewrite Hl. by apply list_elem_of_singleton.
      * right. exists i. split; [lia|]. split; [|exact Hl].
        replace (k - n)%nat with (S (k - S n)) in Hi by lia. exact Hi.
Qed.

(** X17. On a runtime with IntersectionObserver, setting up lazy loading
    requests nothing. It tags every lazy image loading, whether or not its
    URL is loaded already, leaves the other images as they were, and the
    new observer watches exactly the lazy images. *)
Theorem with_observer_nothing_is_requested p :
  let p' := fst (setupLazyLoading true p) in
  snd (setupLazyLoading true p) = []
  ∧ length (images p') = length (images p)
  ∧ manager p' = manager p
  ∧ loadedImages p' = loadedImages p
  ∧ (∀ k, watches p' k ↔ ∃ i, images p !! k = Some i ∧ is_lazy i = true)
  ∧ ∀ k i, images p !! k = Some i →
      images p' !! k = Some (if is_lazy i then tagged i else i).
Proof.
  cbv zeta. unfold setupLazyLoading. cbn [negb fst snd].
  cbn [images manager loadedImages].
  split; [reflexivity|]. split; [by rewrite length_fmap|].
  do 2 (split; [reflexivity|]). split.
  - intros k. unfold watches. cbn [observed].
    rewrite elem_of_list_to_set. unfold lazy_indices.
    rewrite lazy_indices_from_spec. rewrite Nat.sub_0_r.
    split; [intros (i & _ & H); by exists i|].
    intros (i & H). exists i. split; [lia|exact H].
  - intros k i Hk. rewrite list_lookup_fmap, Hk. reflexivity.
Qed.

Lemma with_observer_nothing_is_requested_witness :
  watches (fst (setupLazyLoading true team_page)) 1.
Proof.
  destruct (with_observer_nothing_is_requested team_page)
    as (_ & _ & _ & _ & H & _).
  apply (H 1%nat). exists team_small. split; reflexivity.
Defined.

(** *** The observer's callback *)

Lemma on_intersection_snoc entries e p :
  on_intersection (entries ++ [e]) p
  = on_entry (on_intersection entries p) e.
Proof. unfold on_intersection. by rewrite foldl_app. Qed.

Lemma watches_unobserve p k n im m l :
  watches (mkPage im m l (unobserve n (observed p))) k
  ↔ watches p k ∧ k ≠ n.
Proof.
  unfold watches, unobserve. cbn [observed].
  destruct (observed p) as [s|]; cbn; [set_solver|tauto].
Qed.

(** X18. What the observer's callback does with its entries. It never
    touches the manager or the set of loaded URLs, adds or removes no
    image, and requests at most one URL for each intersecting entry. It
    never starts watching an image; afterwards it watches no image that
    an intersecting entry named; and an image that no intersecting entry
    named is as it was, watched or not as before. *)
Theorem intersection_callback entries p :
  let p' := fst (on_intersection entries p) in
  let requests := snd (on_intersection entries p) in
  manager p' = manager p
  ∧ loadedImages p' = loadedImages p
  ∧ length (images p') = length (images p)
  ∧ (length requests
     ≤ length (filter (λ e, isIntersecting e = true) entries))%nat
  ∧ (∀ k, watches p' k → watches p k)
  ∧ (∀ e, e ∈ entries → isIntersecting e = true →
       (target e < length (images p))%nat → ¬ watches p' (target e))
  ∧ (∀ k, (∀ e, e ∈ entries → isIntersecting e = true → target e ≠ k) →
       images p' !! k = images p !! k ∧ (watches p' k ↔ watches p k)).
Proof.
  cbv zeta. induction entries as [|e entries IH] using rev_ind.
  - cbn. repeat split; try done; try lia.
    intros e H. inversion H.
  - rewrite on_intersection_snoc.
    destruct (on_intersection entries p) as [p1 rs] eqn:E.
    cbn [fst snd] in IH.
    destruct IH as (Hm & Hl & Hlen & Hrs & Hmono & Hgone & Hsame).
    rewrite filter_app, length_app.
    unfold on_entry.
    destruct (isIntersecting e) eqn:Ei.
    + destruct (images p1 !! target e) as [i|] eqn:Et.
      * destruct (loadImage_start (loadedImages p1) i) as [i' rq] eqn:Es.
        cbn [fst snd manager loadedImages images].
        split; [exact Hm|]. split; [exact Hl|].
        split; [by rewrite length_insert|].
        split.
        { rewrite length_app. rewrite filter_cons, decide_True by exact Ei.
          destruct rq; cbn; lia. }
        split.
        { intros k Hk. apply watches_unobserve in Hk as [Hk _].
          by apply Hmono. }
        split.
        { intros e' He' Hi' Hlt Hw.
          apply watches_unobserve in Hw as [Hw Hne].
          apply elem_of_app in He' as [He'|He'].
          - exact (Hgone e' He' Hi' Hlt Hw).
          - apply list_elem_of_singleton in He' as ->. done. }
        intros k Hk.
        assert (Hne : target e ≠ k).
        { apply Hk; [|exact Ei]. apply elem_of_app. right.
          by apply list_elem_of_singleton. }
        destruct (Hsame k) as [Hs1 Hs2].
        { intros e' He'. apply Hk. apply elem_of_app. by left. }
        split.
        { rewrite list_lookup_insert_ne by exact Hne. exact Hs1. }
        rewrite watches_unobserve. rewrite <- Hs2. intuition congruence.
      * cbn [fst snd].
        split; [exact Hm|]. split; [exact Hl|]. split; [exact Hlen|].
        split; [lia|]. split; [exact Hmono|].
        split.
        { intros e' He' Hi' Hlt.
          apply elem_of_app in He' as [He'|He']; [by apply Hgone|].
          apply list_elem_of_singleton in He' as ->.
          apply lookup_ge_None in Et. lia. }
        intros k Hk. apply Hsame. intros e' He'. apply Hk.
        apply elem_of_app. by left.
    + cbn [fst snd].
      split; [exact Hm|]. split; [exact Hl|]. split; [exact Hlen|].
      split; [lia|]. split; [exact Hmono|].
      split.
      { intros e' He' Hi' Hlt.
        apply elem_of_app in He' as [He'|He']; [by apply Hgone|].
        apply list_elem_of_singleton in He' as ->. congruence. }
      intros k Hk. apply Hsame. intros e' He'. apply Hk.
      apply elem_of_app. by left.
Qed.

Lemma intersection_callback_witness :
  ¬ watches (fst (on_intersection [mkEntry 0 true] team_page)) 0.
Proof.
  destruct (intersection_callback [mkEntry 0 true] team_page)
    as (_ & _ & _ & _ & _ & H & _).
  apply (H (mkEntry 0 true)).
  - apply list_elem_of_singleton. reflexivity.
  - reflexivity.
  - cbn. lia.
Defined.

(** X19. An image whose URL is loaded already is passed over when it
    comes into view: the callback requests nothing for it and does not
    touch it, so it keeps the loading tag and is given no source, and the
    observer stops watching it. A lazy image that shares its URL with one
    loaded before is therefore never loaded by the scheduler. *)
Theorem loaded_url_is_passed_over p k i :
  images p !! k = Some i →
  imageUrl i ∈ loadedImages p →
  on_intersection [mkEntry k true] p
  = (mkPage (images p) (manager p) (loadedImages p)
            (unobserve k (observed p)), []).
Proof.
  intros Hk Hu. unfold on_intersection. cbn [foldl on_entry isIntersecting target].
  rewrite Hk. unfold loadImage_start. rewrite (bool_decide_eq_true_2 _ Hu).
  by rewrite list_insert_id.
Qed.

Lemma loaded_url_is_passed_over_witness :
  images team_page !! 1%nat = Some team_small
  ∧ imageUrl team_small ∈ loadedImages team_page
  ∧ snd (on_intersection [mkEntry 1 true] team_page) = [].
Proof.
  split; [reflexivity|]. split; [exact team_small_is_loaded|].
  rewrite (loaded_url_is_passed_over team_page 1 team_small eq_refl
             team_small_is_loaded).
  reflexivity.
Defined.

End LazyLoadFacts.

(** ** The Open Graph image *)

Module HeadFacts.
Import Head.

Lemma querySelector_og_Some metas k :
  querySelector_og metas = Some k →
  ∃ m, metas !! k = Some m ∧ is_og_image m = true.
Proof.
  revert k. induction metas as [|m metas IH]; intros k; [done|].
  cbn [querySelector_og]. destruct (is_og_image m) eqn:E.
  - intros [= <-]. by exists m.
  - destruct (querySelector_og metas) as [j|]; [|done].
    intros [= <-]. apply (IH j eq_refl).
Qed.

Lemma querySelector_og_properties l1 l2 :
  property <$> l1 = property <$> l2 →
  querySelector_og l1 = querySelector_og l2.
Proof.
  revert l2. induction l1 as [|m l1 IH]; intros [|m2 l2]; try done.
  rewrite !fmap_cons. intros [= Hp Hl].
  cbn [querySelector_og]. unfold is_og_image. rewrite Hp.
  by rewrite (IH l2 Hl).
Qed.

Lemma properties_alter v (k : nat) (metas : list Meta) :
  property <$> alter (setAttribute_content v) k metas = property <$> metas.
Proof.
  revert k. induction metas as [|m metas IH]; intros [|k]; try done.
  csimpl. by rewrite IH.
Qed.

Lemma querySelector_og_snoc metas m :
  querySelector_og metas = None → is_og_image m = true →
  querySelector_og (metas ++ [m]) = Some (length metas).
Proof.
  intros Hn Hm. induction metas as [|m0 metas IH].
  - cbn. by rewrite Hm.
  - cbn [querySelector_og app] in *. destruct (is_og_image m0); [done|].
    destruct (querySelector_og metas); [done|]. by rewrite IH.
Qed.

Lemma alter_snoc {A} (f : A → A) (l : list A) x :
  alter f (length l) (l ++ [x]) = l ++ [f x].
Proof. induction l as [|y l IH]; [done|]. csimpl. by rewrite IH. Qed.

Lemma update_found a metas k :
  querySelector_og metas = Some k →
  updateOpenGraphImage a metas = alter (setAttribute_content a) k metas.
Proof. intros H. unfold updateOpenGraphImage. by rewrite H. Qed.

Lemma update_missing a metas :
  querySelector_og metas = None →
  updateOpenGraphImage a metas
  = metas ++ [ {| property := Some "og:image"; content := Some a |} ].
Proof.
  intros H. unfold updateOpenGraphImage. rewrite H.
  by rewrite alter_snoc.
Qed.

(** X20. After an update of the Open Graph image, a reader of the page
    finds the given source as the document's Open Graph image. When the
    document had such a meta element, none is added and every other meta
    element is as it was; when it had none, exactly one is appended. A
    second update replaces what the first one wrote: the last source
    wins, and the document never gets a second Open Graph image. *)
Theorem open_graph_update a b metas :
  let metas' := updateOpenGraphImage a metas in
  og_image metas' = Some a
  ∧ (is_Some (querySelector_og metas) → length metas' = length metas)
  ∧ (querySelector_og metas = None →
       metas' = metas ++ [ {| property := Some "og:image";
                              content := Some a |} ])
  ∧ (∀ k, querySelector_og metas ≠ Some k → (k < length metas)%nat →
       metas' !! k = metas !! k)
  ∧ updateOpenGraphImage b metas' = updateOpenGraphImage b metas
  ∧ length (filter (λ m, is_og_image m = true) metas')
    = Nat.max 1 (length (filter (λ m, is_og_image m = true) metas)).
Proof.
  cbv zeta. destruct (querySelector_og metas) as [k|] eqn:E.
  - rewrite (update_found a metas k E).
    destruct (querySelector_og_Some metas k E) as (m & Hm & Hog).
    assert (Hq : querySelector_og (alter (setAttribute_content a) k metas)
                 = Some k).
    { rewrite <- E. apply querySelector_og_properties, properties_alter. }
    split.
    { unfold og_image. rewrite Hq. cbn.
      rewrite list_lookup_alter_eq, Hm. reflexivity. }
    split; [intros _; apply length_alter|].
    split; [done|].
    split.
    { intros j Hj _. apply list_lookup_alter_ne. congruence. }
    split.
    { rewrite (update_found b _ k Hq), (update_found b metas k E).
      rewrite list_alter_alter_eq. apply list_alter_ext; [|done].
      intros x _. reflexivity. }
    assert (Hlen : ∀ l j,
               length (filter (λ m, is_og_image m = true)
                         (alter (setAttribute_content a) j l))
               = length (filter (λ m, is_og_image m = true) l)).
    { induction l as [|x l IH]; intros [|j]; try done.
      - csimpl. rewrite !filter_cons.
        change (is_og_image (setAttribute_content a x)) with (is_og_image x).
        destruct (decide (is_og_image x = true)); reflexivity.
      - csimpl. rewrite !filter_cons.
        destruct (decide (is_og_image x = true)); cbn; by rewrite IH. }
    rewrite Hlen.
    assert (Hpos : (0 < length (filter (λ m, is_og_image m = true) metas))%nat).
    { assert (Hin : m ∈ filter (λ m, is_og_image m = true) metas).
      { apply list_elem_of_filter. split; [exact Hog|].
        by apply list_elem_of_lookup_2 in Hm. }
      destruct (filter _ metas); [inversion Hin|cbn; lia]. }
    lia.
  - rewrite (update_missing a metas E).
    assert (Hq : querySelector_og
                   (metas ++ [ {| property := Some "og:image";
                                  content := Some a |} ])
                 = Some (length metas)).
    { by apply querySelector_og_snoc. }
    split.
    { unfold og_image. rewrite Hq. cbn.
      rewrite lookup_app_r by lia. rewrite Nat.sub_diag. reflexivity. }
    split; [intros [? [=]]|].
    split; [done|].
    split; [intros j _ Hj; by rewrite lookup_app_l|].
    split.
    { rewrite (update_found b _ _ Hq), (update_missing b metas E).
      by rewrite alter_snoc. }
    rewrite filter_app, length_app.
    assert (Hn : filter (λ m, is_og_image m = true) metas = []).
    { clear Hq. induction metas as [|x l IH]; [done|].
      cbn [querySelector_og] in E. rewrite filter_cons.
      destruct (is_og_image x) eqn:Ex; [done|].
      rewrite decide_False by done. apply IH.
      by destruct (querySelector_og l). }
    rewrite Hn. reflexivity.
Qed.

Lemma open_graph_update_witness :
  querySelector_og [] = None
  ∧ updateOpenGraphImage "images/stock/hero/hero-main-plumber.png" []
    = [ {| property := Some "og:image";
           content := Some "images/stock/hero/hero-main-plumber.png" |} ].
Proof.
  split; [reflexivity|].
  destruct (open_graph_update "images/stock/hero/hero-main-plumber.png" "" [])
    as (_ & _ & H & _).
  exact (H eq_refl).
Defined.

End HeadFacts.

(** ** Dropping WebP sources *)

Module WebPSupportFacts.
Import Builder WebPSupport.

Lemma filter_twice {A} (P : A → Prop) `{∀ x, Decision (P x)} (l : list A) :
  filter P (filter P l) = filter P l.
Proof.
  induction l as [|x l IH]; [done|]. rewrite filter_cons.
  destruct (decide (P x)) as [Hx|Hx]; [|exact IH].
  rewrite filter_cons, decide_True by exact Hx. by rewrite IH.
Qed.

Lemma remove_webp_sources_twice p :
  remove_webp_sources (remove_webp_sources p) = remove_webp_sources p.
Proof.
  unfold remove_webp_sources. cbn [children className category imageName].
  by rewrite filter_twice.
Qed.

(** X21. When the browser supports WebP the pictures of the document are
    left alone. When it does not, every picture keeps its place, its
    class and its data, and loses exactly its sources of type image/webp
    (in any letter case): what remains are its other children in their
    order, among them every image. In both cases a second run changes
    nothing more. *)
Theorem webp_sources_are_dropped env pictures :
  let ps := setupWebPSupport env pictures in
  length ps = length pictures
  ∧ (checkWebPSupport env = true → ps = pictures)
  ∧ (checkWebPSupport env = false →
       ∀ k p, pictures !! k = Some p →
         ∃ p', ps !! k = Some p'
           ∧ className p' = className p
           ∧ category p' = category p
           ∧ imageName p' = imageName p
           ∧ children p' `sublist_of` children p
           ∧ (∀ c, c ∈ children p'
                   ↔ c ∈ children p ∧ is_webp_source c = false)
           ∧ ∀ i, ImgChild i ∈ children p → ImgChild i ∈ children p')
  ∧ setupWebPSupport env ps = ps.
Proof.
  cbv zeta. unfold setupWebPSupport.
  destruct (checkWebPSupport env); cbn [negb].
  - split; [done|]. split; [done|]. split; [done|]. reflexivity.
  - split; [by rewrite length_fmap|]. split; [done|].
    split.
    + intros _ k p Hk. exists (remove_webp_sources p).
      split; [by rewrite list_lookup_fmap, Hk|].
      do 3 (split; [reflexivity|]).
      cbn [remove_webp_sources children].
      split; [apply sublist_filter|].
      split.
      * intros c. rewrite list_elem_of_filter. tauto.
      * intros i Hi. apply list_elem_of_filter. by split.
    + rewrite <- list_fmap_compose. apply list_fmap_ext.
      intros _ p _. apply remove_webp_sources_twice.
Qed.

Lemma webp_sources_are_dropped_witness :
  checkWebPSupport BuilderSpec.no_webp = false
  ∧ ∃ p', setupWebPSupport BuilderSpec.no_webp [webp_picture] !! 0%nat
          = Some p'
          ∧ ImgChild (Dom.img FallbackSpec.hero_tree) ∈ children p'.
Proof.
  assert (H : checkWebPSupport BuilderSpec.no_webp = false) by reflexivity.
  split; [exact H|].
  destruct (webp_sources_are_dropped BuilderSpec.no_webp [webp_picture])
    as (_ & _ & Hd & _).
  destruct (Hd H 0%nat webp_picture eq_refl)
    as (p' & Hp & _ & _ & _ & _ & _ & Hi).
  exists p'. split; [exact Hp|]. apply Hi.
  apply elem_of_cons. right. apply list_elem_of_singleton. reflexivity.
Defined.

End WebPSupportFacts.
